(** * The USB updater shell: command dispatch loop

    A shallow embedding of [usbshell_loop] (updatershell/usbshell.cpp).

    The loop talks to collaborators that live outside the file: the framed
    USB transport, the process spawner, the device-info provider, the
    bootloader reader and libc.  Each call the loop makes to one of them is
    an event of the type [call]; the loop itself is a program tree over
    those events, and it is run against an environment that answers every
    call.  The run records the calls and their answers in order, so that the
    wire protocol can be read off the trace.

    A transport that fails raises a C++ exception that unwinds out of
    [usbshell_loop]; that is not modelled: here every call returns. *)

From Stdlib Require Import ZArith NArith List String Ascii Bool Lia.
Import ListNotations.

Local Open Scope string_scope.
Local Open Scope list_scope.
Local Open Scope Z_scope.

(** ** Machine integers *)

(** [int] is 32 bits wide, two's complement. *)
Definition INT_MIN : Z := - 2 ^ 31.
Definition INT_MAX : Z := 2 ^ 31 - 1.

(** Conversion of an integer value to [int]: reduction modulo 2^32 into
    the signed range. *)
Definition int_wrap (z : Z) : Z := (z + 2 ^ 31) mod 2 ^ 32 - 2 ^ 31.

(** [size_t] is unsigned; its width (32 or 64 bits) depends on the target. *)
Definition size_t_fits (bits : Z) (n : N) : Prop := Z.of_N n < 2 ^ bits.

(** The implicit conversion in [response.result = num_blocks]. *)
Definition int_of_size_t (n : N) : Z := int_wrap (Z.of_N n).

(** Byte order of the machine the loop runs on. *)
Inductive byte_order : Set := LittleEndian | BigEndian.

Definition opposite (order : byte_order) : byte_order :=
  match order with
  | LittleEndian => BigEndian
  | BigEndian => LittleEndian
  end.

Fixpoint le_value (bytes : list Z) : Z :=
  match bytes with
  | [] => 0
  | b :: rest => b + 256 * le_value rest
  end.

Definition char_codes (s : string) : list Z :=
  map (fun c => Z.of_N (N_of_ascii c)) (list_ascii_of_string s).

(** [*(int * ) s]: the first four chars of [s] read as one [int]. *)
Definition load_int (order : byte_order) (s : string) : Z :=
  let bytes := firstn 4 (char_codes s) in
  int_wrap (le_value (match order with
                      | LittleEndian => bytes
                      | BigEndian => rev bytes
                      end)).

(** ** Constants and frames *)

Definition USB_FEATURE_SHELL : Z := 0x23.
Definition USB_RESULT_SUCCESS : Z := 0.
Definition USB_RESULT_ERROR : Z := -1.
Definition O_RDONLY : Z := 0.

(** [struct usb_shell_request { int cmd; char data[0xfff8]; }] *)
Record usb_shell_request : Set := { cmd : Z; data : string }.

(** [struct usb_shell_response { int result; }] *)
Record usb_shell_response : Set := { result : Z }.

Definition sizeof_data : Z := 0xfff8.
Definition sizeof_request : Z := 4 + sizeof_data.
Definition sizeof_response : Z := 4.

(** What [popen2] hands back: its return value and the descriptors it stored
    through the out-pointers that were not NULL. *)
Record popen2_result : Set := { pid : Z; child_stdin : Z; child_stdout : Z }.

(** libc [open]: a new descriptor, which is not negative, or -1 with the
    reason left in [errno]. *)
Inductive open_result : Set :=
| Opened (fd : N)
| OpenFailed (errno : Z).

Definition open_return (r : open_result) : Z :=
  match r with
  | Opened fd => Z.of_N fd
  | OpenFailed _ => -1
  end.

Definition ENOENT : Z := 2.

(** How an iteration of [while (1)] ends. *)
Inductive flow : Set := Continue | Break.

Section UsbShell.

(** Declarations of headers outside the file. *)
Context {device_info : Type}          (* struct device_info, deviceinfo.h *)
        {bootloader_block : Type}     (* struct bootloader_block, api/bootloader.h *)
        (BOOTLOADER_DEV : string)     (* api/bootloader.h *)
        (host : byte_order).

(** ** Calls to the collaborators

    [call X] is a call whose answer has type [X]. *)
Inductive call : Type -> Type :=
(* session set-up and teardown *)
| new_UsbCmd (feature : Z) : call unit
| new_UsbSequenceTransfer : call unit
| usleep (usec : Z) : call unit
| delete_transfer : call unit
| delete_cmd : call unit
(* transfer->read(&request, size), transfer->read(NULL, size) *)
| transfer_read_request (size : Z) : call usb_shell_request
| transfer_read_null (size : Z) : call unit
(* transfer->write(&response, size), transfer->write(&info, sizeof(info)) *)
| transfer_write_response (response : usb_shell_response) (size : Z) : call unit
| transfer_write_info (info : device_info) : call unit
(* data phases of usbtransfer.hpp *)
| usb_transfer_socket (fd_in fd_out : Z) : call unit
| usb_transfer_read_fd (fd : Z) : call unit
| usb_transfer_read_buffer (buffer : string) (size : N) : call unit
(* deviceinfo.h, process.h *)
| get_device_info : call (Z * device_info)
| popen2 (args : list string) (want_stdin : bool) : call popen2_result
(* libc *)
| open (pathname : string) (flags : Z) : call open_result
| close (fd : Z) : call unit
(* api/bootloader.h *)
| bootloader_get_num_blocks : call N
| bootloader_get_blocks (fd : Z) : call (N -> bootloader_block)
| bootloader_get_block_size (block : bootloader_block) : call N
| bootloader_read_block (fd : Z) (block : bootloader_block) : call string.

(** ** Programs *)
Inductive prog (R : Type) : Type :=
| Ret (r : R)
| Vis (X : Type) (c : call X) (k : X -> prog R).

Arguments Ret {R} r.
Arguments Vis {R X} c k.

Fixpoint bind {A B : Type} (p : prog A) (f : A -> prog B) : prog B :=
  match p with
  | Ret a => f a
  | Vis c k => Vis c (fun x => bind (k x) f)
  end.

Definition perform {X : Type} (c : call X) : prog X := Vis c Ret.

Coercion perform : call >-> prog.

Notation "x <- p ;; q" := (bind p (fun x => q))
  (at level 61, p at next level, right associativity).
Notation "' pat <- p ;; q" := (bind p (fun x => match x with pat => q end))
  (at level 61, pat pattern, p at next level, right associativity).
Notation "p ;; q" := (bind p (fun _ => q))
  (at level 61, right associativity).

(** ** The loop *)

(** [*(int * ) "TEST"] and its siblings. *)
Definition tag (name : string) : Z := load_int host name.

(** The [for] loop of the BLDR branch: [count] iterations remain and [i]
    is the index of the next block. *)
Fixpoint for_each_block (fd : Z) (blocks : N -> bootloader_block)
         (count : nat) (i : N) : prog unit :=
  match count with
  | O => Ret tt
  | S count' =>
      l <- bootloader_get_block_size (blocks i) ;;
      block_buf <- bootloader_read_block fd (blocks i) ;;
      usb_transfer_read_buffer block_buf l ;;
      for_each_block fd blocks count' (i + 1)%N
  end.

(** The if/else chain on [request.cmd], one request. *)
Definition dispatch (request : usb_shell_request) : prog flow :=
  if cmd request =? tag "TEST" then
    let response := {| result := USB_RESULT_SUCCESS |} in
    transfer_write_response response sizeof_response ;;
    Ret Continue
  else if cmd request =? tag "INFO" then
    '(err, info) <- get_device_info ;;
    let response := {| result := if err =? 0 then USB_RESULT_SUCCESS else err |} in
    transfer_write_response response sizeof_response ;;
    (if err =? 0 then
       transfer_read_null 0 ;;
       transfer_write_info info
     else Ret tt) ;;
    Ret Continue
  else if cmd request =? tag "SHEL" then
    let args := ["sh"; "-i"] in
    child <- popen2 args true ;;
    let response := {| result := if pid child >=? 0 then USB_RESULT_SUCCESS else pid child |} in
    transfer_write_response response sizeof_response ;;
    (if pid child >=? 0 then
       usb_transfer_socket (child_stdin child) (child_stdout child)
     else Ret tt) ;;
    Ret Continue
  else if cmd request =? tag "EXEC" then
    let args := ["sh"; "-c"; data request] in
    child <- popen2 args false ;;
    let response := {| result := if pid child >=? 0 then USB_RESULT_SUCCESS else pid child |} in
    transfer_write_response response sizeof_response ;;
    (if pid child >=? 0 then
       usb_transfer_socket 0 (child_stdout child)
     else Ret tt) ;;
    Ret Continue
  else if cmd request =? tag "PULL" then
    opened <- open (data request) O_RDONLY ;;
    let fd := open_return opened in
    let response := {| result := if fd >=? 0 then USB_RESULT_SUCCESS else fd |} in
    transfer_write_response response sizeof_response ;;
    (if fd >=? 0 then usb_transfer_read_fd fd else Ret tt) ;;
    Ret Continue
  else if cmd request =? tag "BLDR" then
    opened <- open BOOTLOADER_DEV O_RDONLY ;;
    let fd := open_return opened in
    num_blocks <- bootloader_get_num_blocks ;;
    let response := {| result := int_of_size_t num_blocks |} in
    transfer_write_response response sizeof_response ;;
    blocks <- bootloader_get_blocks fd ;;
    for_each_block fd blocks (N.to_nat num_blocks) 0%N ;;
    close fd ;;
    Ret Continue
  else if cmd request =? tag "EXIT" then
    let response := {| result := USB_RESULT_SUCCESS |} in
    transfer_write_response response sizeof_response ;;
    Ret Break
  else
    let response := {| result := USB_RESULT_ERROR |} in
    transfer_write_response response sizeof_response ;;
    Ret Continue.

(** The body of [while (1)]. *)
Definition iteration : prog flow :=
  request <- transfer_read_request sizeof_request ;;
  dispatch request.

(** [while (1)], cut off after [fuel] iterations: [Some tt] when the loop
    was left through [break], [None] when the fuel ran out first. *)
Fixpoint while_1 (fuel : nat) : prog (option unit) :=
  match fuel with
  | O => Ret None
  | S fuel' =>
      f <- iteration ;;
      match f with
      | Break => Ret (Some tt)
      | Continue => while_1 fuel'
      end
  end.

Definition usbshell_loop (fuel : nat) : prog (option unit) :=
  new_UsbCmd USB_FEATURE_SHELL ;;
  new_UsbSequenceTransfer ;;
  left <- while_1 fuel ;;
  match left with
  | Some tt =>
      usleep 500000 ;;
      delete_transfer ;;
      delete_cmd ;;
      Ret (Some tt)
  | None => Ret None
  end.

(** ** Running a program against an environment *)

(** A call together with the answer it got. *)
Inductive event : Type :=
| Event (X : Type) (c : call X) (answer : X).

Arguments Event {X} c answer.

(** An environment with state [W] answers every call. *)
Definition oracle (W : Type) : Type := forall X : Type, call X -> W -> X * W.

Fixpoint run {W R : Type} (h : oracle W) (p : prog R) (w : W)
  : list event * R * W :=
  match p with
  | Ret r => ([], r, w)
  | Vis c k =>
      let '(x, w1) := h _ c w in
      let '(t, r, w2) := run h (k x) w1 in
      (Event c x :: t, r, w2)
  end.

Definition trace_of {W R : Type} (h : oracle W) (p : prog R) (w : W) : list event :=
  fst (fst (run h p w)).

Definition outcome_of {W R : Type} (h : oracle W) (p : prog R) (w : W) : R :=
  snd (fst (run h p w)).

Definition world_after {W R : Type} (h : oracle W) (p : prog R) (w : W) : W :=
  snd (run h p w).

(** ** Reading the protocol off a trace *)

(** Where a call stands in the protocol. *)
Inductive role : Set :=
| RequestFrame      (* a request frame is read *)
| ResponseFrame     (* a response frame is written *)
| DataPhase         (* traffic on the transport after the response *)
| OffWire.          (* a call that does not touch the transport *)

Definition role_of {X : Type} (c : call X) : role :=
  match c with
  | transfer_read_request _ => RequestFrame
  | transfer_write_response _ _ => ResponseFrame
  | transfer_read_null _ | transfer_write_info _
  | usb_transfer_socket _ _ | usb_transfer_read_fd _
  | usb_transfer_read_buffer _ _ => DataPhase
  | _ => OffWire
  end.

Definition event_role (e : event) : role :=
  match e with Event c _ => role_of c end.

Definition is_data_phase (e : event) : bool :=
  match event_role e with DataPhase => true | _ => false end.

Definition request_read (e : event) : option usb_shell_request :=
  match e with
  | Event c x =>
      match c in call X return X -> option usb_shell_request with
      | transfer_read_request _ => fun request => Some request
      | _ => fun _ => None
      end x
  end.

Definition response_written (e : event) : option usb_shell_response :=
  match e with
  | Event (transfer_write_response response _) _ => Some response
  | _ => None
  end.

Definition block_size_declared (e : event) : option N :=
  match e with
  | Event c x =>
      match c in call X return X -> option N with
      | bootloader_get_block_size _ => fun l => Some l
      | _ => fun _ => None
      end x
  end.

Definition buffer_streamed (e : event) : option (string * N) :=
  match e with
  | Event (usb_transfer_read_buffer buffer size) _ => Some (buffer, size)
  | _ => None
  end.

Fixpoint collect {A : Type} (f : event -> option A) (t : list event) : list A :=
  match t with
  | [] => []
  | e :: t' =>
      match f e with
      | Some a => a :: collect f t'
      | None => collect f t'
      end
  end.

Definition requests_read : list event -> list usb_shell_request := collect request_read.
Definition responses_written : list event -> list usb_shell_response := collect response_written.
Definition data_phase : list event -> list event := filter is_data_phase.

(** The lock-step discipline as seen by the host: a request, then its
    response, then the data phase of that request, then the next request. *)
Inductive phase : Set := Idle | Pending | Answered | Violated.

Definition step (s : phase) (e : event) : phase :=
  match event_role e, s with
  | OffWire, _ => s
  | RequestFrame, (Idle | Answered) => Pending
  | ResponseFrame, Pending => Answered
  | DataPhase, Answered => Answered
  | _, _ => Violated
  end.

Definition lock_step (t : list event) : bool :=
  match fold_left step t Idle with
  | Idle | Answered => true
  | Pending | Violated => false
  end.

(** What holds of the answer to any request at all. *)
Definition well_answered (request : usb_shell_request) (t : list event) (f : flow) : Prop :=
  fold_left step t Pending = Answered
  /\ requests_read t = []
  /\ List.length (responses_written t) = 1%nat
  /\ f = (if cmd request =? tag "EXIT" then Break else Continue).

(** The seven commands of the if/else chain. *)
Definition known_commands : list string :=
  ["TEST"; "INFO"; "SHEL"; "EXEC"; "PULL"; "BLDR"; "EXIT"].

(** The events of the BLDR data phase for the blocks from index [i] on,
    given what the reader answered for each of them: its declared size
    and the contents it read. *)
Fixpoint block_events (fd : Z) (blocks : N -> bootloader_block)
         (i : N) (answers : list (N * string)) : list event :=
  match answers with
  | [] => []
  | (l, block_buf) :: rest =>
      Event (bootloader_get_block_size (blocks i)) l
      :: Event (bootloader_read_block fd (blocks i)) block_buf
      :: Event (usb_transfer_read_buffer block_buf l) tt
      :: block_events fd blocks (i + 1)%N rest
  end.

(** ** More to read off a trace *)

(** The calls that make the session and end it: the two constructors, the
    drain delay and the two deletes. *)
Definition is_lifecycle (e : event) : bool :=
  match e with
  | Event c _ =>
      match c with
      | new_UsbCmd _ | new_UsbSequenceTransfer | usleep _
      | delete_transfer | delete_cmd => true
      | _ => false
      end
  end.

(** The lengths passed to [transfer->read] and [transfer->write] for the
    two frames: 0xfffc bytes for a request, 4 for a response, and 0 for the
    read that comes before the info record. *)
Definition frame_sized (e : event) : bool :=
  match e with
  | Event c _ =>
      match c with
      | transfer_read_request size => size =? 65532
      | transfer_write_response _ size => size =? 4
      | transfer_read_null size => size =? 0
      | _ => true
      end
  end.

Definition descriptor_closed (e : event) : option Z :=
  match e with
  | Event (close fd) _ => Some fd
  | _ => None
  end.

(** Inside the chain no call makes or ends the session, and every frame has
    its fixed length. *)
Definition plain (e : event) : Prop := is_lifecycle e = false /\ frame_sized e = true.

(** The commands whose response announces a data phase when it is 0. *)
Definition commands_with_data : list string := ["INFO"; "SHEL"; "EXEC"; "PULL"].

End UsbShell.

Arguments call : clear implicits.
Arguments prog : clear implicits.
Arguments event : clear implicits.
Arguments oracle : clear implicits.
Arguments Ret {device_info bootloader_block R} r.
Arguments Vis {device_info bootloader_block R X} c k.
Arguments Event {device_info bootloader_block X} c answer.

(** ** A scripted environment

    A stand-in for the collaborators, to run the loop on concrete inputs:
    the host's frames are queued in advance and every collaborator answers
    from a table. *)
Module Scripted.

Definition info : Set := string.
Definition block : Set := string.
Definition DEV : string := "/dev/bootloader".

Record world : Type := {
  frames : list usb_shell_request;   (* what the host sends, in order *)
  provider : Z * info;               (* what get_device_info answers *)
  child : popen2_result;             (* what popen2 answers *)
  files : list (string * N);         (* paths open can open, with the descriptor *)
  why_not : Z;                       (* errno of an open that fails *)
  count : N;                         (* what bootloader_get_num_blocks answers *)
  image : list block                 (* the blocks, each with its contents *)
}.

Definition pop (w : world) : world :=
  {| frames := tl (frames w); provider := provider w; child := child w;
     files := files w; why_not := why_not w; count := count w; image := image w |}.

Fixpoint lookup (path : string) (table : list (string * N)) : option N :=
  match table with
  | [] => None
  | (p, fd) :: rest => if String.eqb p path then Some fd else lookup path rest
  end.

(** Once the queue is empty the host sends EXIT. *)
Definition next_frame (order : byte_order) (w : world) : usb_shell_request :=
  hd {| cmd := load_int order "EXIT"; data := "" |} (frames w).

Definition answer (order : byte_order) : oracle info block world :=
  fun X c w =>
    match c in call _ _ X return X * world with
    | new_UsbCmd _ | new_UsbSequenceTransfer | usleep _
    | delete_transfer | delete_cmd => (tt, w)
    | transfer_read_request _ => (next_frame order w, pop w)
    | transfer_read_null _ | transfer_write_response _ _
    | transfer_write_info _ => (tt, w)
    | usb_transfer_socket _ _ | usb_transfer_read_fd _
    | usb_transfer_read_buffer _ _ => (tt, w)
    | get_device_info => (provider w, w)
    | popen2 _ _ => (child w, w)
    | open pathname _ =>
        (match lookup pathname (files w) with
         | Some fd => Opened fd
         | None => OpenFailed (why_not w)
         end, w)
    | close _ => (tt, w)
    | bootloader_get_num_blocks => (count w, w)
    | bootloader_get_blocks _ => (fun i => nth (N.to_nat i) (image w) "", w)
    | bootloader_get_block_size b => (N.of_nat (String.length b), w)
    | bootloader_read_block _ b => (b, w)
    end.

Definition frame (name : string) (payload : string) : usb_shell_request :=
  {| cmd := load_int LittleEndian name; data := payload |}.

Definition bench (queue : list usb_shell_request) : world :=
  {| frames := queue;
     provider := (0, "DSC-RX100");
     child := {| pid := 77; child_stdin := 5; child_stdout := 6 |};
     files := [("/etc/hosts", 4%N); (DEV, 3%N)];
     why_not := ENOENT;
     count := 2;
     image := ["boot"; "loader!"] |}.

Definition with_provider (p : Z * info) (w : world) : world :=
  {| frames := frames w; provider := p; child := child w;
     files := files w; why_not := why_not w; count := count w; image := image w |}.

Definition with_child (c : popen2_result) (w : world) : world :=
  {| frames := frames w; provider := provider w; child := c;
     files := files w; why_not := why_not w; count := count w; image := image w |}.

Definition with_files (table : list (string * N)) (w : world) : world :=
  {| frames := frames w; provider := provider w; child := child w;
     files := table; why_not := why_not w; count := count w; image := image w |}.

Definition with_count (n : N) (w : world) : world :=
  {| frames := frames w; provider := provider w; child := child w;
     files := files w; why_not := why_not w; count := n; image := image w |}.

(** Readers that report 2^31 and 2^32 blocks. *)
Definition two_to_31 : world := with_count 2147483648 (bench []).
Definition two_to_32 : world := with_count 4294967296 (bench []).

Definition env : oracle info block world := answer LittleEndian.

(** The loop on a little-endian machine whose bootloader device is [DEV]. *)
Definition serve : usb_shell_request -> prog info block flow :=
  dispatch (device_info := info) (bootloader_block := block) DEV LittleEndian.

Definition session : nat -> prog info block (option unit) :=
  usbshell_loop (device_info := info) (bootloader_block := block) DEV LittleEndian.

End Scripted.

(** ** Statements that the code does not meet

    Three sentences about PULL and BLDR, written down as they stand; each is
    refuted below on the scripted environment. *)
Section Statements.

Context {device_info bootloader_block : Type}.
Variable BOOTLOADER_DEV : string.
Variable host : byte_order.

Local Abbreviation oracle := (oracle device_info bootloader_block).
Local Abbreviation dispatch := (dispatch (device_info := device_info)
                              (bootloader_block := bootloader_block) BOOTLOADER_DEV host).

(** A PULL whose open fails answers with the error code of that open,
    as it is or negated. *)
Definition pull_result_is_errno : Prop :=
  forall (W : Type) (h : oracle W) (w w1 : W) (request : usb_shell_request) (errno : Z),
    cmd request = tag host "PULL" ->
    h _ (open (data request) O_RDONLY) w = (OpenFailed errno, w1) ->
    responses_written (trace_of h (dispatch request) w) = [{| result := errno |}]
    \/ responses_written (trace_of h (dispatch request) w) = [{| result := - errno |}].

(** The result of a BLDR is the number of blocks the reader reported. *)
Definition bldr_result_is_count : Prop :=
  forall (W : Type) (h : oracle W) (w w1 w2 : W) (request : usb_shell_request)
         (opened : open_result) (n : N),
    cmd request = tag host "BLDR" ->
    h _ (open BOOTLOADER_DEV O_RDONLY) w = (opened, w1) ->
    h _ bootloader_get_num_blocks w1 = (n, w2) ->
    responses_written (trace_of h (dispatch request) w) = [{| result := Z.of_N n |}].

(** With a [size_t] of [bits] bits, every count of 2^31 or more goes out
    as a negative result. *)
Definition bldr_large_count_is_negative (bits : Z) : Prop :=
  forall (W : Type) (h : oracle W) (w w1 w2 : W) (request : usb_shell_request)
         (opened : open_result) (n : N),
    cmd request = tag host "BLDR" ->
    h _ (open BOOTLOADER_DEV O_RDONLY) w = (opened, w1) ->
    h _ bootloader_get_num_blocks w1 = (n, w2) ->
    size_t_fits bits n ->
    2 ^ 31 <= Z.of_N n ->
    exists r, responses_written (trace_of h (dispatch request) w) = [r] /\ result r < 0.

End Statements.

(** * Properties *)

(** Unfolds the if/else chain down to the branch that [H] selects. *)
Ltac choose_branch differ H :=
  unfold dispatch; rewrite H;
  repeat (rewrite differ by (cbn; intuition congruence));
  rewrite ?Z.eqb_refl; reflexivity.

(** Takes the chain to its last branch, given that no tag matches. *)
Ltac fall_through request H :=
  unfold dispatch;
  repeat match goal with
         | |- context [cmd request =? ?t] =>
             destruct (Z.eqb_spec (cmd request) t) as [? | _]; [exfalso; intuition | ]
         end;
  reflexivity.

(** Unfold the loop and its body (the section below abbreviates their names). *)
Ltac open_dispatch := unfold dispatch.
Ltac open_iteration := unfold iteration.
Ltac open_while := cbn [while_1].
Ltac open_loop := unfold usbshell_loop.

(** Runs a straight-line program, asking the environment [h] for each
    answer in turn. *)
Ltac ask h :=
  unfold trace_of, outcome_of, world_after; cbn [run bind perform];
  repeat match goal with
         | H : h ?X ?c ?w = _ |- context [h ?X ?c ?w] => rewrite H; cbn [run bind perform]
         | |- context [h unit ?c ?w] =>
             destruct (h unit c w) as [[] ?]; cbn [run bind perform]
         end.

Section Properties.

Context {device_info bootloader_block : Type}.
Variable BOOTLOADER_DEV : string.
Variable host : byte_order.

Local Abbreviation call := (call device_info bootloader_block).
Local Abbreviation prog := (prog device_info bootloader_block).
Local Abbreviation event := (event device_info bootloader_block).
Local Abbreviation oracle := (oracle device_info bootloader_block).
Local Abbreviation tag := (tag host).
Local Abbreviation block_events := (block_events (device_info := device_info)).
Local Abbreviation well_answered :=
  (well_answered (device_info := device_info) (bootloader_block := bootloader_block) host).
Local Abbreviation dispatch :=
  (dispatch (device_info := device_info) (bootloader_block := bootloader_block)
     BOOTLOADER_DEV host).
Local Abbreviation iteration :=
  (iteration (device_info := device_info) (bootloader_block := bootloader_block)
     BOOTLOADER_DEV host).
Local Abbreviation while_1 :=
  (while_1 (device_info := device_info) (bootloader_block := bootloader_block)
     BOOTLOADER_DEV host).
Local Abbreviation usbshell_loop :=
  (usbshell_loop (device_info := device_info) (bootloader_block := bootloader_block)
     BOOTLOADER_DEV host).

(** ** Runs compose *)

Lemma run_bind (W A B : Type) (h : oracle W) (p : prog A) (f : A -> prog B) (w : W) :
  run h (bind p f) w =
  (trace_of h p w ++ trace_of h (f (outcome_of h p w)) (world_after h p w),
   outcome_of h (f (outcome_of h p w)) (world_after h p w),
   world_after h (f (outcome_of h p w)) (world_after h p w)).
Proof.
  unfold trace_of, outcome_of, world_after.
  revert w; induction p as [a | X c k IH]; intros w; cbn.
  - now destruct (run h (f a) w) as [[t r] w'].
  - destruct (h X c w) as [x w1]. rewrite IH.
    destruct (run h (k x) w1) as [[t1 a] w2]; cbn.
    now destruct (run h (f a) w2) as [[t2 b] w3].
Qed.

(** ** The if/else chain, branch by branch *)

Lemma tags_differ (a b : string) :
  In a known_commands -> In b known_commands -> a <> b -> (tag a =? tag b) = false.
Proof.
  unfold known_commands; cbn [In]; intros Ha Hb Hab.
  repeat match goal with
         | H : _ \/ _ |- _ => destruct H as [H | H]
         | H : False |- _ => contradiction
         end; subst; try congruence; destruct host; reflexivity.
Qed.

Lemma dispatch_TEST (request : usb_shell_request) :
  cmd request = tag "TEST" ->
  dispatch request =
  bind (perform (transfer_write_response {| result := USB_RESULT_SUCCESS |} sizeof_response))
       (fun _ => Ret Continue).
Proof. intros H. choose_branch tags_differ H. Qed.

Lemma dispatch_INFO (request : usb_shell_request) :
  cmd request = tag "INFO" ->
  dispatch request =
  bind (perform get_device_info)
       (fun answer =>
          let '(err, info) := answer in
          bind (perform (transfer_write_response
                           {| result := if err =? 0 then USB_RESULT_SUCCESS else err |}
                           sizeof_response))
               (fun _ =>
                  bind (if err =? 0
                        then bind (perform (transfer_read_null 0))
                               (fun _ => perform (transfer_write_info info))
                        else Ret tt)
                       (fun _ => Ret Continue))).
Proof. intros H. choose_branch tags_differ H. Qed.

Lemma dispatch_spawn (request : usb_shell_request) (interactive : bool) :
  cmd request = tag (if interactive then "SHEL" else "EXEC") ->
  dispatch request =
  bind (perform (popen2 (if interactive then ["sh"; "-i"] else ["sh"; "-c"; data request])
                   interactive))
       (fun child =>
          bind (perform (transfer_write_response
                           {| result := if pid child >=? 0 then USB_RESULT_SUCCESS
                                        else pid child |}
                           sizeof_response))
               (fun _ =>
                  bind (if pid child >=? 0
                        then perform (usb_transfer_socket
                                        (if interactive then child_stdin child else 0)
                                        (child_stdout child))
                        else Ret tt)
                       (fun _ => Ret Continue))).
Proof. intros H. destruct interactive; choose_branch tags_differ H. Qed.

Lemma dispatch_PULL (request : usb_shell_request) :
  cmd request = tag "PULL" ->
  dispatch request =
  bind (perform (open (data request) O_RDONLY))
       (fun opened =>
          let fd := open_return opened in
          bind (perform (transfer_write_response
                           {| result := if fd >=? 0 then USB_RESULT_SUCCESS else fd |}
                           sizeof_response))
               (fun _ =>
                  bind (if fd >=? 0 then perform (usb_transfer_read_fd fd) else Ret tt)
                       (fun _ => Ret Continue))).
Proof. intros H. choose_branch tags_differ H. Qed.

Lemma dispatch_BLDR (request : usb_shell_request) :
  cmd request = tag "BLDR" ->
  dispatch request =
  bind (perform (open BOOTLOADER_DEV O_RDONLY))
       (fun opened =>
          let fd := open_return opened in
          bind (perform bootloader_get_num_blocks)
               (fun num_blocks =>
                  bind (perform (transfer_write_response
                                   {| result := int_of_size_t num_blocks |}
                                   sizeof_response))
                       (fun _ =>
                          bind (perform (bootloader_get_blocks fd))
                               (fun blocks =>
                                  bind (for_each_block fd blocks (N.to_nat num_blocks) 0%N)
                                       (fun _ =>
                                          bind (perform (close fd))
                                               (fun _ => Ret Continue)))))).
Proof. intros H. choose_branch tags_differ H. Qed.

Lemma dispatch_EXIT (request : usb_shell_request) :
  cmd request = tag "EXIT" ->
  dispatch request =
  bind (perform (transfer_write_response {| result := USB_RESULT_SUCCESS |} sizeof_response))
       (fun _ => Ret Break).
Proof. intros H. choose_branch tags_differ H. Qed.

Lemma dispatch_unknown (request : usb_shell_request) :
  ~ In (cmd request) (map tag known_commands) ->
  dispatch request =
  bind (perform (transfer_write_response {| result := USB_RESULT_ERROR |} sizeof_response))
       (fun _ => Ret Continue).
Proof.
  intros H. cbn [known_commands map In] in H.
  fall_through request H.
Qed.

(** ** One request *)

(** C9. A TEST request is answered with result 0 and nothing else, whatever
    its payload holds. *)
Theorem test_always_succeeds (W : Type) (h : oracle W) (w : W) (payload : string) :
  let request := {| cmd := tag "TEST"; data := payload |} in
  trace_of h (dispatch request) w =
    [Event (transfer_write_response {| result := 0 |} sizeof_response) tt]
  /\ data_phase (trace_of h (dispatch request) w) = []
  /\ outcome_of h (dispatch request) w = Continue.
Proof.
  intros request. rewrite (dispatch_TEST request) by reflexivity.
  ask h. repeat split.
Qed.

(** C4. An INFO request: when the provider answers 0 the result is 0, then a
    zero-length read, then the whole info record is written; when it answers
    an error code the result is that code and nothing follows. *)
Theorem info_reports_provider_status (W : Type) (h : oracle W) (w w1 : W)
        (request : usb_shell_request) (err : Z) (info : device_info) :
  cmd request = tag "INFO" ->
  h _ get_device_info w = ((err, info), w1) ->
  (err = 0 ->
   trace_of h (dispatch request) w =
     [Event get_device_info (err, info);
      Event (transfer_write_response {| result := 0 |} sizeof_response) tt;
      Event (transfer_read_null 0) tt;
      Event (transfer_write_info info) tt])
  /\ (err <> 0 ->
      trace_of h (dispatch request) w =
        [Event get_device_info (err, info);
         Event (transfer_write_response {| result := err |} sizeof_response) tt])
  /\ outcome_of h (dispatch request) w = Continue.
Proof.
  intros Hcmd Hinfo. rewrite (dispatch_INFO request Hcmd).
  destruct (Z.eqb_spec err 0) as [E | E].
  - subst err. ask h. cbn [Z.eqb]. ask h. repeat split; intros; congruence.
  - ask h. rewrite (proj2 (Z.eqb_neq _ _) E). ask h.
    repeat split; intros; solve [contradiction | reflexivity].
Qed.

(** C7. A SHEL or EXEC request: when popen2 returns a negative value the
    result is that value and no bridge follows; otherwise the result is 0
    and the bridge runs on the descriptors of the child. *)
Theorem spawn_failure_skips_the_bridge (W : Type) (h : oracle W) (w w1 : W)
        (request : usb_shell_request) (interactive : bool) (child : popen2_result) :
  let spawn := popen2 (if interactive then ["sh"; "-i"] else ["sh"; "-c"; data request])
                 interactive in
  cmd request = tag (if interactive then "SHEL" else "EXEC") ->
  h _ spawn w = (child, w1) ->
  (pid child < 0 ->
   trace_of h (dispatch request) w =
     [Event spawn child;
      Event (transfer_write_response {| result := pid child |} sizeof_response) tt])
  /\ (0 <= pid child ->
      trace_of h (dispatch request) w =
        [Event spawn child;
         Event (transfer_write_response {| result := 0 |} sizeof_response) tt;
         Event (usb_transfer_socket (if interactive then child_stdin child else 0)
                  (child_stdout child)) tt])
  /\ outcome_of h (dispatch request) w = Continue.
Proof.
  intros spawn Hcmd Hspawn. subst spawn.
  rewrite (dispatch_spawn request interactive Hcmd).
  destruct (Z.geb_spec (pid child) 0) as [E | E].
  - ask h. rewrite (proj2 (Z.geb_le _ _) E). ask h.
    repeat split; intros; try reflexivity; lia.
  - ask h. replace (pid child >=? 0) with false by (symmetry; rewrite Z.geb_leb; apply Z.leb_gt; lia).
    ask h. repeat split; intros; try reflexivity; lia.
Qed.

(** C3, amended. A PULL request whose open fails is answered with -1, the
    value open returned, whatever errno says, and nothing follows; one whose
    open succeeds is answered with 0 and then the opened descriptor is
    streamed to the host. *)
Theorem pull_reports_open_return (W : Type) (h : oracle W) (w w1 : W)
        (request : usb_shell_request) (opened : open_result) :
  cmd request = tag "PULL" ->
  h _ (open (data request) O_RDONLY) w = (opened, w1) ->
  trace_of h (dispatch request) w =
    match opened with
    | OpenFailed _ =>
        [Event (open (data request) O_RDONLY) opened;
         Event (transfer_write_response {| result := -1 |} sizeof_response) tt]
    | Opened fd =>
        [Event (open (data request) O_RDONLY) opened;
         Event (transfer_write_response {| result := 0 |} sizeof_response) tt;
         Event (usb_transfer_read_fd (Z.of_N fd)) tt]
    end
  /\ outcome_of h (dispatch request) w = Continue.
Proof.
  intros Hcmd Hopen. rewrite (dispatch_PULL request Hcmd).
  destruct opened as [fd | errno]; ask h.
  - cbn [open_return]. rewrite (proj2 (Z.geb_le _ _) (N2Z.is_nonneg fd)). ask h. now split.
  - cbn [open_return Z.geb Z.compare]. ask h. now split.
Qed.

(** ** The BLDR data phase *)

Lemma collect_app (A : Type) (f : event -> option A) (t1 t2 : list event) :
  collect f (t1 ++ t2) = collect f t1 ++ collect f t2.
Proof.
  induction t1 as [| e t1 IH]; cbn; [reflexivity |].
  destruct (f e); cbn; now rewrite IH.
Qed.

Lemma for_each_block_trace (W : Type) (h : oracle W) (fd : Z)
      (blocks : N -> bootloader_block) (count : nat) :
  forall (i : N) (w : W),
  exists answers : list (N * string),
    List.length answers = count
    /\ trace_of h (for_each_block fd blocks count i) w = block_events fd blocks i answers.
Proof.
  induction count as [| count IH]; intros i w.
  - exists []. now split.
  - unfold trace_of. cbn [for_each_block run bind perform].
    destruct (h _ (bootloader_get_block_size (blocks i)) w) as [l w1].
    destruct (h _ (bootloader_read_block fd (blocks i)) w1) as [block_buf w2].
    destruct (h _ (usb_transfer_read_buffer block_buf l) w2) as [[] w3].
    destruct (IH (i + 1)%N w3) as (answers & Hlen & Htrace).
    unfold trace_of in Htrace.
    destruct (run h (for_each_block fd blocks count (i + 1)%N) w3) as [[t r] w4].
    exists ((l, block_buf) :: answers). cbn in *. split; congruence.
Qed.

Lemma block_events_quiet (fd : Z) (blocks : N -> bootloader_block)
      (answers : list (N * string)) :
  forall i : N,
    requests_read (block_events fd blocks i answers) = []
    /\ responses_written (block_events fd blocks i answers) = [].
Proof.
  induction answers as [| [l block_buf] answers IH]; intros i; cbn; [easy |].
  apply IH.
Qed.

Lemma block_events_streamed (fd : Z) (blocks : N -> bootloader_block)
      (answers : list (N * string)) :
  forall i : N,
    collect buffer_streamed (block_events fd blocks i answers)
    = map (fun a => (snd a, fst a)) answers
    /\ collect block_size_declared (block_events fd blocks i answers) = map fst answers.
Proof.
  induction answers as [| [l block_buf] answers IH]; intros i; cbn; [easy |].
  destruct (IH (i + 1)%N) as [-> ->]. easy.
Qed.

Lemma bldr_trace (W : Type) (h : oracle W) (w w1 w2 : W)
      (request : usb_shell_request) (opened : open_result) (n : N) :
  cmd request = tag "BLDR" ->
  h _ (open BOOTLOADER_DEV O_RDONLY) w = (opened, w1) ->
  h _ bootloader_get_num_blocks w1 = (n, w2) ->
  exists (blocks : N -> bootloader_block) (answers : list (N * string)),
    List.length answers = N.to_nat n
    /\ trace_of h (dispatch request) w =
         [Event (open BOOTLOADER_DEV O_RDONLY) opened;
          Event bootloader_get_num_blocks n;
          Event (transfer_write_response {| result := int_of_size_t n |} sizeof_response) tt;
          Event (bootloader_get_blocks (open_return opened)) blocks]
         ++ block_events (open_return opened) blocks 0 answers
         ++ [Event (close (open_return opened)) tt]
    /\ outcome_of h (dispatch request) w = Continue.
Proof.
  intros Hcmd Hopen Hnum. rewrite (dispatch_BLDR request Hcmd).
  ask h.
  destruct (h _ (bootloader_get_blocks (open_return opened)) w0) as [blocks w3].
  rewrite run_bind. cbn [run bind perform].
  destruct (for_each_block_trace W h (open_return opened) blocks (N.to_nat n) 0%N w3)
    as (answers & Hlen & Htrace).
  exists blocks, answers. rewrite Htrace. ask h. cbn. now repeat split.
Qed.

(** ** The conversion of the block count to [int] *)

Lemma int_wrap_spec (z : Z) :
  INT_MIN <= int_wrap z <= INT_MAX
  /\ int_wrap z mod 2 ^ 32 = z mod 2 ^ 32
  /\ (int_wrap z < 0 <-> 2 ^ 31 <= z mod 2 ^ 32).
Proof.
  unfold int_wrap, INT_MIN, INT_MAX.
  change (2 ^ 32) with 4294967296; change (2 ^ 31) with 2147483648.
  repeat split; Z.div_mod_to_equations; lia.
Qed.

Lemma int_wrap_small (z : Z) : INT_MIN <= z <= INT_MAX -> int_wrap z = z.
Proof.
  unfold int_wrap, INT_MIN, INT_MAX.
  change (2 ^ 32) with 4294967296; change (2 ^ 31) with 2147483648.
  intros H; Z.div_mod_to_equations; lia.
Qed.

Lemma bldr_responses (W : Type) (h : oracle W) (w w1 w2 : W)
      (request : usb_shell_request) (opened : open_result) (n : N) :
  cmd request = tag "BLDR" ->
  h _ (open BOOTLOADER_DEV O_RDONLY) w = (opened, w1) ->
  h _ bootloader_get_num_blocks w1 = (n, w2) ->
  responses_written (trace_of h (dispatch request) w) = [{| result := int_of_size_t n |}].
Proof.
  intros Hcmd Hopen Hnum.
  destruct (bldr_trace W h w w1 w2 request opened n Hcmd Hopen Hnum)
    as (blocks & answers & _ & -> & _).
  destruct (block_events_quiet (open_return opened) blocks answers 0%N) as (_ & Hquiet).
  unfold responses_written in *. rewrite !collect_app, Hquiet. reflexivity.
Qed.

(** C2, amended. The result of a BLDR request is the reported block count
    converted to [int], which is the count itself whenever the count is
    below 2^31; the data phase then streams as many buffers as blocks were
    reported, the i-th with the size declared for block i, in order. *)
Theorem bldr_streams_every_block (W : Type) (h : oracle W) (w w1 w2 : W)
        (request : usb_shell_request) (opened : open_result) (n : N) :
  cmd request = tag "BLDR" ->
  h _ (open BOOTLOADER_DEV O_RDONLY) w = (opened, w1) ->
  h _ bootloader_get_num_blocks w1 = (n, w2) ->
  let t := trace_of h (dispatch request) w in
  let fd := open_return opened in
  responses_written t = [{| result := int_of_size_t n |}]
  /\ (Z.of_N n < 2 ^ 31 -> int_of_size_t n = Z.of_N n)
  /\ (exists (blocks : N -> bootloader_block) (answers : list (N * string)),
        List.length answers = N.to_nat n
        /\ t = [Event (open BOOTLOADER_DEV O_RDONLY) opened;
                Event bootloader_get_num_blocks n;
                Event (transfer_write_response {| result := int_of_size_t n |}
                         sizeof_response) tt;
                Event (bootloader_get_blocks fd) blocks]
               ++ block_events fd blocks 0 answers
               ++ [Event (close fd) tt])
  /\ List.length (collect buffer_streamed t) = N.to_nat n
  /\ map snd (collect buffer_streamed t) = collect block_size_declared t.
Proof.
  intros Hcmd Hopen Hnum t fd.
  split; [exact (bldr_responses W h w w1 w2 request opened n Hcmd Hopen Hnum) |].
  split.
  { intros Hn. apply int_wrap_small. unfold INT_MIN, INT_MAX. lia. }
  destruct (bldr_trace W h w w1 w2 request opened n Hcmd Hopen Hnum)
    as (blocks & answers & Hlen & Htrace & _).
  fold t fd in Htrace.
  assert (Hstreamed : collect buffer_streamed t = map (fun a => (snd a, fst a)) answers).
  { rewrite Htrace, !collect_app. cbn [collect buffer_streamed app].
    rewrite (proj1 (block_events_streamed fd blocks answers 0%N)).
    apply app_nil_r. }
  assert (Hsizes : collect block_size_declared t = map fst answers).
  { rewrite Htrace, !collect_app. cbn [collect block_size_declared app].
    rewrite (proj2 (block_events_streamed fd blocks answers 0%N)).
    apply app_nil_r. }
  split; [now exists blocks, answers |].
  rewrite Hstreamed, Hsizes, length_map, map_map. now split.
Qed.

(** C8. A BLDR request whose open fails goes on all the same: the count is
    asked for and written as the result, the blocks are enumerated, read and
    streamed with the descriptor -1, and -1 is closed; the result written is
    the one a successful open would have given for the same count. *)
Theorem bldr_ignores_failed_open (W : Type) (h : oracle W) (w w1 w2 : W)
        (request : usb_shell_request) (errno : Z) (n : N) :
  cmd request = tag "BLDR" ->
  h _ (open BOOTLOADER_DEV O_RDONLY) w = (OpenFailed errno, w1) ->
  h _ bootloader_get_num_blocks w1 = (n, w2) ->
  (exists (blocks : N -> bootloader_block) (answers : list (N * string)),
      List.length answers = N.to_nat n
      /\ trace_of h (dispatch request) w =
           [Event (open BOOTLOADER_DEV O_RDONLY) (OpenFailed errno);
            Event bootloader_get_num_blocks n;
            Event (transfer_write_response {| result := int_of_size_t n |}
                     sizeof_response) tt;
            Event (bootloader_get_blocks (-1)) blocks]
           ++ block_events (-1) blocks 0 answers
           ++ [Event (close (-1)) tt])
  /\ (forall (W' : Type) (h' : oracle W') (w' w1' w2' : W') (fd : N),
        h' _ (open BOOTLOADER_DEV O_RDONLY) w' = (Opened fd, w1') ->
        h' _ bootloader_get_num_blocks w1' = (n, w2') ->
        responses_written (trace_of h' (dispatch request) w')
        = responses_written (trace_of h (dispatch request) w))
  /\ outcome_of h (dispatch request) w = Continue.
Proof.
  intros Hcmd Hopen Hnum.
  destruct (bldr_trace W h w w1 w2 request _ n Hcmd Hopen Hnum)
    as (blocks & answers & Hlen & Htrace & Hout).
  split; [now exists blocks, answers |].
  split; [| exact Hout].
  intros W' h' w' w1' w2' fd Hopen' Hnum'.
  rewrite (bldr_responses W h w w1 w2 request _ n Hcmd Hopen Hnum).
  exact (bldr_responses W' h' w' w1' w2' request _ n Hcmd Hopen' Hnum').
Qed.

(** C10, amended. The result of a BLDR request is the block count reduced
    modulo 2^32 into the range of [int]; it is negative exactly when the
    count modulo 2^32 is 2^31 or more, which with a 32-bit [size_t] is every
    count of 2^31 or more. *)
Theorem bldr_count_conversion (W : Type) (h : oracle W) (w w1 w2 : W)
        (request : usb_shell_request) (opened : open_result) (n : N) :
  cmd request = tag "BLDR" ->
  h _ (open BOOTLOADER_DEV O_RDONLY) w = (opened, w1) ->
  h _ bootloader_get_num_blocks w1 = (n, w2) ->
  exists r : Z,
    responses_written (trace_of h (dispatch request) w) = [{| result := r |}]
    /\ INT_MIN <= r <= INT_MAX
    /\ r mod 2 ^ 32 = Z.of_N n mod 2 ^ 32
    /\ (r < 0 <-> 2 ^ 31 <= Z.of_N n mod 2 ^ 32)
    /\ (size_t_fits 32 n -> 2 ^ 31 <= Z.of_N n -> r < 0).
Proof.
  intros Hcmd Hopen Hnum. exists (int_of_size_t n).
  split; [exact (bldr_responses W h w w1 w2 request opened n Hcmd Hopen Hnum) |].
  unfold int_of_size_t.
  destruct (int_wrap_spec (Z.of_N n)) as (Hrange & Hmod & Hneg).
  repeat split; try tauto; try apply Hrange.
  unfold size_t_fits. intros Hfits Hbig. apply Hneg.
  rewrite Z.mod_small; lia.
Qed.

(** ** Every branch keeps the lock step *)

Lemma command_cases (request : usb_shell_request) :
  {name : string | In name known_commands /\ cmd request = tag name}
  + {~ In (cmd request) (map tag known_commands)}.
Proof.
  assert (is_it : forall name : string,
             {cmd request = tag name} + {cmd request <> tag name})
    by (intros name; apply Z.eq_dec).
  destruct (is_it "TEST"); [left; exists "TEST"; cbn; tauto |].
  destruct (is_it "INFO"); [left; exists "INFO"; cbn; tauto |].
  destruct (is_it "SHEL"); [left; exists "SHEL"; cbn; tauto |].
  destruct (is_it "EXEC"); [left; exists "EXEC"; cbn; tauto |].
  destruct (is_it "PULL"); [left; exists "PULL"; cbn; tauto |].
  destruct (is_it "BLDR"); [left; exists "BLDR"; cbn; tauto |].
  destruct (is_it "EXIT"); [left; exists "EXIT"; cbn; tauto |].
  right. cbn [known_commands map In]. intuition congruence.
Qed.

Lemma block_events_step (fd : Z) (blocks : N -> bootloader_block)
      (answers : list (N * string)) :
  forall i : N, fold_left step (block_events fd blocks i answers) Answered = Answered.
Proof.
  induction answers as [| [l block_buf] answers IH]; intros i; cbn; [reflexivity |].
  apply IH.
Qed.

Lemma dispatch_well_answered (W : Type) (h : oracle W) (w : W) (request : usb_shell_request) :
  well_answered request (trace_of h (dispatch request) w) (outcome_of h (dispatch request) w).
Proof.
  unfold well_answered.
  destruct (command_cases request) as [(name & Hin & Hcmd) | Hnone].
  - unfold known_commands in Hin; cbn [In] in Hin.
    assert (Hexit : (cmd request =? tag "EXIT") = (name =? "EXIT")%string).
    { rewrite Hcmd.
      repeat (destruct Hin as [<- | Hin]; [destruct host; reflexivity |]).
      contradiction. }
    rewrite Hexit; clear Hexit.
    destruct Hin as [<- | [<- | [<- | [<- | [<- | [<- | [<- | []]]]]]]].
    + rewrite (dispatch_TEST request Hcmd). ask h. now cbn.
    + rewrite (dispatch_INFO request Hcmd). ask h.
      destruct (h _ get_device_info w) as [[err info] w1]. ask h.
      destruct (err =? 0); ask h; now cbn.
    + rewrite (dispatch_spawn request true Hcmd). ask h.
      destruct (h _ (popen2 ["sh"; "-i"] true) w) as [child w1]. ask h.
      destruct (pid child >=? 0); ask h; now cbn.
    + rewrite (dispatch_spawn request false Hcmd). ask h.
      destruct (h _ (popen2 ["sh"; "-c"; data request] false) w) as [child w1]. ask h.
      destruct (pid child >=? 0); ask h; now cbn.
    + rewrite (dispatch_PULL request Hcmd). ask h.
      destruct (h _ (open (data request) O_RDONLY) w) as [opened w1]. ask h.
      destruct (open_return opened >=? 0); ask h; now cbn.
    + destruct (h _ (open BOOTLOADER_DEV O_RDONLY) w) as [opened w1] eqn:Hopen.
      destruct (h _ bootloader_get_num_blocks w1) as [n w2] eqn:Hnum.
      destruct (bldr_trace W h w w1 w2 request opened n Hcmd Hopen Hnum)
        as (blocks & answers & _ & -> & ->).
      destruct (block_events_quiet (open_return opened) blocks answers 0%N)
        as (Hreq & Hresp).
      unfold requests_read, responses_written in *.
      rewrite !collect_app, !fold_left_app, Hreq, Hresp.
      cbn [fold_left app]. rewrite block_events_step. now cbn.
    + rewrite (dispatch_EXIT request Hcmd). ask h. now cbn.
  - rewrite (dispatch_unknown request Hnone). ask h.
    cbn [known_commands map In] in Hnone.
    destruct (Z.eqb_spec (cmd request) (tag "EXIT")) as [E | _];
      [exfalso; intuition congruence | now cbn].
Qed.

(** ** The loop *)

Lemma iteration_run (W : Type) (h : oracle W) (w w1 : W) (request : usb_shell_request) :
  h _ (transfer_read_request sizeof_request) w = (request, w1) ->
  trace_of h iteration w
  = Event (transfer_read_request sizeof_request) request :: trace_of h (dispatch request) w1
  /\ outcome_of h iteration w = outcome_of h (dispatch request) w1
  /\ world_after h iteration w = world_after h (dispatch request) w1.
Proof.
  intros Hread. open_iteration. unfold trace_of, outcome_of, world_after.
  cbn [run bind perform]. rewrite Hread.
  replace (bind (Ret request) dispatch) with (dispatch request) by reflexivity.
  now destruct (run h (dispatch request) w1) as [[t f] w2].
Qed.

Lemma while_1_unfold (W : Type) (h : oracle W) (w : W) (fuel : nat) :
  run h (while_1 (S fuel)) w =
  match outcome_of h iteration w with
  | Break => (trace_of h iteration w, Some tt, world_after h iteration w)
  | Continue =>
      (trace_of h iteration w ++ trace_of h (while_1 fuel) (world_after h iteration w),
       outcome_of h (while_1 fuel) (world_after h iteration w),
       world_after h (while_1 fuel) (world_after h iteration w))
  end.
Proof.
  open_while. rewrite run_bind.
  destruct (outcome_of h iteration w); [reflexivity |].
  unfold trace_of, outcome_of, world_after; cbn [run fst snd]. now rewrite app_nil_r.
Qed.

(** Fuel left over changes nothing: once the loop has returned, it returns
    in the same way with more fuel. *)
Lemma while_1_more_fuel (W : Type) (h : oracle W) (fuel : nat) :
  forall w : W,
    outcome_of h (while_1 fuel) w = Some tt ->
    run h (while_1 (S fuel)) w = run h (while_1 fuel) w.
Proof.
  induction fuel as [| fuel IH]; intros w Hret; [discriminate Hret |].
  revert Hret. unfold outcome_of at 1.
  rewrite (while_1_unfold W h w (S fuel)), (while_1_unfold W h w fuel).
  destruct (outcome_of h iteration w); cbn [fst snd]; [| reflexivity].
  intros Hret. specialize (IH _ Hret).
  unfold trace_of, outcome_of, world_after in *. now rewrite IH.
Qed.

Lemma usbshell_loop_run (W : Type) (h : oracle W) (w : W) (fuel : nat) :
  exists w2 : W,
    trace_of h (usbshell_loop fuel) w
    = [Event (new_UsbCmd USB_FEATURE_SHELL) tt; Event new_UsbSequenceTransfer tt]
      ++ trace_of h (while_1 fuel) w2
      ++ match outcome_of h (while_1 fuel) w2 with
         | Some _ => [Event (usleep 500000) tt; Event delete_transfer tt;
                      Event delete_cmd tt]
         | None => []
         end
    /\ outcome_of h (usbshell_loop fuel) w = outcome_of h (while_1 fuel) w2.
Proof.
  open_loop. unfold trace_of, outcome_of. cbn [run bind perform].
  destruct (h _ (new_UsbCmd USB_FEATURE_SHELL) w) as [[] wa].
  destruct (h _ new_UsbSequenceTransfer wa) as [[] wb].
  exists wb. rewrite run_bind. unfold trace_of, outcome_of, world_after.
  destruct (run h (while_1 fuel) wb) as [[t [[] |]] wc]; cbn [fst snd]; ask h; now cbn.
Qed.

Lemma while_1_lock_step (W : Type) (h : oracle W) (fuel : nat) :
  forall (w : W) (s : phase),
    s = Idle \/ s = Answered ->
    let t := trace_of h (while_1 fuel) w in
    (fold_left step t s = s \/ fold_left step t s = Answered)
    /\ List.length (responses_written t) = List.length (requests_read t).
Proof.
  induction fuel as [| fuel IH]; intros w s Hs t; subst t.
  - cbn. tauto.
  - unfold trace_of at 1 2 3 4. rewrite while_1_unfold.
    destruct (h _ (transfer_read_request sizeof_request) w) as [request w1] eqn:Hread.
    destruct (iteration_run W h w w1 request Hread) as (Htrace & Hout & Hworld).
    destruct (dispatch_well_answered W h w1 request) as (Hstep & Hreq & Hresp & _).
    assert (Hiter : fold_left step (trace_of h iteration w) s = Answered).
    { rewrite Htrace. cbn [fold_left]. destruct Hs as [-> | ->]; exact Hstep. }
    assert (Hcount : List.length (responses_written (trace_of h iteration w)) = 1%nat
                     /\ List.length (requests_read (trace_of h iteration w)) = 1%nat).
    { rewrite Htrace. unfold requests_read, responses_written in *.
      cbn [collect request_read response_written]. rewrite Hreq, Hresp. now split. }
    destruct (outcome_of h iteration w); cbn [fst].
    + destruct (IH (world_after h iteration w) Answered (or_intror eq_refl)) as (Hs' & Hn).
      unfold requests_read, responses_written in *.
      rewrite fold_left_app, !collect_app, !length_app, Hiter.
      split; [tauto | lia].
    + split; [tauto | lia].
Qed.

(** C1. In every run of the loop the trace keeps the lock step: each request
    frame read is followed by one response frame before any data-phase
    traffic and before the next request frame is read, and as many response
    frames are written as request frames are read. *)
Theorem one_response_per_request (W : Type) (h : oracle W) (w : W) (fuel : nat) :
  let t := trace_of h (usbshell_loop fuel) w in
  lock_step t = true
  /\ List.length (responses_written t) = List.length (requests_read t).
Proof.
  intros t; subst t.
  destruct (usbshell_loop_run W h w fuel) as (w2 & -> & _).
  destruct (while_1_lock_step W h fuel w2 Idle (or_introl eq_refl)) as (Hs & Hn).
  unfold lock_step, requests_read, responses_written in *.
  rewrite !fold_left_app, !collect_app, !length_app. cbn [fold_left app].
  change (step (step Idle _) _) with Idle.
  split.
  - destruct Hs as [-> | ->]; now destruct (outcome_of h (while_1 fuel) w2).
  - destruct (outcome_of h (while_1 fuel) w2); cbn; lia.
Qed.

Lemma exit_run (W : Type) (h : oracle W) (w : W) (request : usb_shell_request) :
  cmd request = tag "EXIT" ->
  trace_of h (dispatch request) w
  = [Event (transfer_write_response {| result := 0 |} sizeof_response) tt]
  /\ outcome_of h (dispatch request) w = Break.
Proof. intros Hcmd. rewrite (dispatch_EXIT request Hcmd). ask h. now split. Qed.

Lemma while_1_stops_at_exit (W : Type) (h : oracle W) (fuel : nat) :
  forall (w : W) (before after : list usb_shell_request) (request : usb_shell_request),
    requests_read (trace_of h (while_1 fuel) w) = before ++ request :: after ->
    cmd request = tag "EXIT" ->
    after = []
    /\ outcome_of h (while_1 fuel) w = Some tt
    /\ exists earlier : list event,
         trace_of h (while_1 fuel) w
         = earlier ++ [Event (transfer_read_request sizeof_request) request;
                       Event (transfer_write_response {| result := 0 |} sizeof_response) tt].
Proof.
  induction fuel as [| fuel IH]; intros w before after request Hreads Hcmd.
  - cbn in Hreads. now destruct before.
  - revert Hreads. unfold trace_of at 1 2, outcome_of at 1. rewrite while_1_unfold.
    destruct (h _ (transfer_read_request sizeof_request) w) as [first w1] eqn:Hread.
    destruct (iteration_run W h w w1 first Hread) as (Htrace & Hout & Hworld).
    destruct (dispatch_well_answered W h w1 first) as (_ & Hquiet & _ & Hflow).
    rewrite Hout, Hflow, Htrace.
    destruct (Z.eqb_spec (cmd first) (tag "EXIT")) as [Hexit | Hother]; cbn [fst snd].
    + destruct (exit_run W h w1 first Hexit) as (Hanswer & _). rewrite Hanswer.
      cbn. intros Hreads.
      destruct before as [| b [| b' before]]; try discriminate.
      injection Hreads as <- <-. repeat split. now exists [].
    + unfold requests_read in *. rewrite collect_app. cbn [collect request_read].
      rewrite Hquiet. cbn [app]. intros Hreads.
      destruct before as [| b before]; cbn [app] in Hreads.
      * injection Hreads as -> _. contradiction.
      * injection Hreads as _ Hreads.
        destruct (IH _ before after request Hreads Hcmd) as (-> & Hret & earlier & Hlater).
        repeat split; [exact Hret |].
        exists (Event (transfer_read_request sizeof_request) first
                  :: trace_of h (dispatch first) w1 ++ earlier).
        rewrite Hlater. cbn [app]. now rewrite app_assoc.
Qed.

(** C5. An EXIT request is answered with result 0 and nothing else, and it
    ends the loop: the iteration that reads it returns from [while (1)]
    whatever fuel is left, and in every run an EXIT request is the last
    request read, followed only by its response and the teardown. *)
Theorem exit_ends_the_loop (W : Type) (h : oracle W) (w : W) (fuel : nat)
        (request : usb_shell_request) :
  cmd request = tag "EXIT" ->
  (forall w0 : W,
      trace_of h (dispatch request) w0
      = [Event (transfer_write_response {| result := 0 |} sizeof_response) tt]
      /\ data_phase (trace_of h (dispatch request) w0) = []
      /\ outcome_of h (dispatch request) w0 = Break)
  /\ (forall w0 w1 : W,
        h _ (transfer_read_request sizeof_request) w0 = (request, w1) ->
        trace_of h (while_1 (S fuel)) w0
        = [Event (transfer_read_request sizeof_request) request;
           Event (transfer_write_response {| result := 0 |} sizeof_response) tt]
        /\ outcome_of h (while_1 (S fuel)) w0 = Some tt)
  /\ (forall before after : list usb_shell_request,
        requests_read (trace_of h (usbshell_loop fuel) w) = before ++ request :: after ->
        after = []
        /\ outcome_of h (usbshell_loop fuel) w = Some tt
        /\ exists earlier : list event,
             trace_of h (usbshell_loop fuel) w
             = earlier ++ [Event (transfer_read_request sizeof_request) request;
                           Event (transfer_write_response {| result := 0 |}
                                    sizeof_response) tt;
                           Event (usleep 500000) tt;
                           Event delete_transfer tt;
                           Event delete_cmd tt]).
Proof.
  intros Hcmd. split; [| split].
  - intros w0. destruct (exit_run W h w0 request Hcmd) as (-> & ->). now repeat split.
  - intros w0 w1 Hread.
    destruct (iteration_run W h w0 w1 request Hread) as (Htrace & Hout & _).
    destruct (exit_run W h w1 request Hcmd) as (Hanswer & Hbreak).
    unfold trace_of at 1, outcome_of at 1. rewrite while_1_unfold, Hout, Hbreak.
    cbn [fst snd]. now rewrite Htrace, Hanswer.
  - intros before after.
    destruct (usbshell_loop_run W h w fuel) as (w2 & -> & ->).
    unfold requests_read. rewrite !collect_app. cbn [collect request_read app].
    intros Hreads.
    assert (Hloop : requests_read (trace_of h (while_1 fuel) w2) = before ++ request :: after).
    { unfold requests_read. rewrite <- Hreads.
      destruct (outcome_of h (while_1 fuel) w2); cbn; now rewrite app_nil_r. }
    destruct (while_1_stops_at_exit W h fuel w2 before after request Hloop Hcmd)
      as (-> & Hret & earlier & Hlater).
    rewrite Hret, Hlater. repeat split.
    exists (Event (new_UsbCmd USB_FEATURE_SHELL) tt :: Event new_UsbSequenceTransfer tt
              :: earlier).
    cbn [app]. now rewrite <- app_assoc.
Qed.

(** C6. A request whose tag is none of the seven is answered with result -1
    and nothing else, and the loop goes on: with fuel left, the next call on
    the transport reads the next request frame. *)
Theorem unknown_command_rejected (W : Type) (h : oracle W) (w w1 : W) (fuel : nat)
        (request : usb_shell_request) :
  ~ In (cmd request) (map tag known_commands) ->
  h _ (transfer_read_request sizeof_request) w = (request, w1) ->
  trace_of h (dispatch request) w1
  = [Event (transfer_write_response {| result := -1 |} sizeof_response) tt]
  /\ data_phase (trace_of h (dispatch request) w1) = []
  /\ outcome_of h (dispatch request) w1 = Continue
  /\ exists (next : usb_shell_request) (rest : list event),
       trace_of h (while_1 (S (S fuel))) w
       = Event (transfer_read_request sizeof_request) request
         :: Event (transfer_write_response {| result := -1 |} sizeof_response) tt
         :: Event (transfer_read_request sizeof_request) next
         :: rest.
Proof.
  intros Hnone Hread.
  assert (Hanswer : trace_of h (dispatch request) w1
                    = [Event (transfer_write_response {| result := -1 |} sizeof_response) tt]
                    /\ outcome_of h (dispatch request) w1 = Continue).
  { rewrite (dispatch_unknown request Hnone). ask h. now split. }
  destruct Hanswer as (Hanswer & Hcontinue).
  rewrite Hanswer, Hcontinue. repeat split.
  destruct (iteration_run W h w w1 request Hread) as (Htrace & Hout & _).
  unfold trace_of at 1. rewrite while_1_unfold, Hout, Hcontinue. cbn [fst].
  rewrite Htrace, Hanswer.
  set (w2 := world_after h iteration w).
  destruct (h _ (transfer_read_request sizeof_request) w2) as [next w3] eqn:Hnext.
  destruct (iteration_run W h w2 w3 next Hnext) as (Htrace' & _).
  unfold trace_of at 1. rewrite while_1_unfold.
  exists next.
  destruct (outcome_of h iteration w2); cbn [fst]; rewrite Htrace'; cbn [app]; eauto.
Qed.

(** * Further properties of the loop *)

(** ** The tags *)

Lemma int_wrap_injective (x y : Z) :
  0 <= x < 2 ^ 32 -> 0 <= y < 2 ^ 32 -> int_wrap x = int_wrap y -> x = y.
Proof.
  unfold int_wrap.
  change (2 ^ 32) with 4294967296; change (2 ^ 31) with 2147483648.
  intros Hx Hy H. Z.div_mod_to_equations. lia.
Qed.

Lemma char_code_bounded (c : ascii) : 0 <= Z.of_N (N_of_ascii c) < 256.
Proof.
  pose proof (N_ascii_bounded c) as H. lia.
Qed.

Lemma char_code_injective (c d : ascii) :
  Z.of_N (N_of_ascii c) = Z.of_N (N_of_ascii d) -> c = d.
Proof.
  intros H. apply N2Z.inj in H.
  rewrite <- (ascii_N_embedding c), <- (ascii_N_embedding d). now rewrite H.
Qed.

(** X1. Reading four chars as an [int] loses nothing: in either byte order
    two names of four chars with the same [int] are the same name, so no two
    tags can be taken for each other. *)
Theorem load_int_injective (order : byte_order) (s1 s2 : string) :
  String.length s1 = 4%nat ->
  String.length s2 = 4%nat ->
  load_int order s1 = load_int order s2 ->
  s1 = s2.
Proof.
  destruct s1 as [| a1 [| a2 [| a3 [| a4 [| ? ?]]]]]; try discriminate.
  destruct s2 as [| b1 [| b2 [| b3 [| b4 [| ? ?]]]]]; try discriminate.
  intros _ _ H. unfold load_int, char_codes in H.
  cbn [list_ascii_of_string map firstn] in H.
  pose proof (char_code_bounded a1). pose proof (char_code_bounded a2).
  pose proof (char_code_bounded a3). pose proof (char_code_bounded a4).
  pose proof (char_code_bounded b1). pose proof (char_code_bounded b2).
  pose proof (char_code_bounded b3). pose proof (char_code_bounded b4).
  assert (Hdigits : Z.of_N (N_of_ascii a1) = Z.of_N (N_of_ascii b1)
                    /\ Z.of_N (N_of_ascii a2) = Z.of_N (N_of_ascii b2)
                    /\ Z.of_N (N_of_ascii a3) = Z.of_N (N_of_ascii b3)
                    /\ Z.of_N (N_of_ascii a4) = Z.of_N (N_of_ascii b4)).
  { destruct order; cbn [rev app le_value] in H;
      apply int_wrap_injective in H; change (2 ^ 32) with 4294967296; lia. }
  destruct Hdigits as (E1 & E2 & E3 & E4).
  apply char_code_injective in E1, E2, E3, E4. now subst.
Qed.

(** X2. A tag packed in the byte order opposite to the machine's is none of
    the seven: whichever command the host meant, the request is answered
    with result -1 and nothing else, and the loop goes on. *)
Theorem swapped_tag_is_unknown (W : Type) (h : oracle W) (w : W)
        (name payload : string) :
  In name known_commands ->
  let request := {| cmd := load_int (opposite host) name; data := payload |} in
  trace_of h (dispatch request) w
  = [Event (transfer_write_response {| result := -1 |} sizeof_response) tt]
  /\ outcome_of h (dispatch request) w = Continue.
Proof.
  intros Hname request.
  assert (Hnone : ~ In (cmd request) (map tag known_commands)).
  { subst request. unfold known_commands in *. cbn [In] in Hname.
    repeat (destruct Hname as [<- | Hname];
            [destruct host; cbv; intuition discriminate |]).
    contradiction. }
  rewrite (dispatch_unknown request Hnone). ask h. now split.
Qed.

(** X3. Only EXEC and PULL look at the payload: two requests with the same
    tag, which is neither of those two, are served by the same program. *)
Theorem payload_is_ignored (r1 r2 : usb_shell_request) :
  cmd r1 = cmd r2 ->
  cmd r1 <> tag "EXEC" ->
  cmd r1 <> tag "PULL" ->
  dispatch r1 = dispatch r2.
Proof.
  intros Hsame Hexec Hpull. open_dispatch. rewrite <- Hsame.
  apply Z.eqb_neq in Hexec, Hpull. rewrite Hexec, Hpull. reflexivity.
Qed.

(** ** What a request can and cannot make the loop do *)

Lemma block_events_plain (fd : Z) (blocks : N -> bootloader_block)
      (answers : list (N * string)) :
  forall i : N, Forall plain (block_events fd blocks i answers).
Proof.
  induction answers as [| [l block_buf] answers IH]; intros i; cbn; [constructor |].
  repeat (constructor; [now split |]). apply IH.
Qed.

Lemma dispatch_plain (W : Type) (h : oracle W) (w : W) (request : usb_shell_request) :
  Forall plain (trace_of h (dispatch request) w).
Proof.
  destruct (command_cases request) as [(name & Hin & Hcmd) | Hnone].
  - unfold known_commands in Hin; cbn [In] in Hin.
    destruct Hin as [<- | [<- | [<- | [<- | [<- | [<- | [<- | []]]]]]]].
    + rewrite (dispatch_TEST request Hcmd). ask h. repeat constructor.
    + rewrite (dispatch_INFO request Hcmd). ask h.
      destruct (h _ get_device_info w) as [[err info] w1]. ask h.
      destruct (err =? 0); ask h; repeat constructor.
    + rewrite (dispatch_spawn request true Hcmd). ask h.
      destruct (h _ (popen2 ["sh"; "-i"] true) w) as [child w1]. ask h.
      destruct (pid child >=? 0); ask h; repeat constructor.
    + rewrite (dispatch_spawn request false Hcmd). ask h.
      destruct (h _ (popen2 ["sh"; "-c"; data request] false) w) as [child w1]. ask h.
      destruct (pid child >=? 0); ask h; repeat constructor.
    + rewrite (dispatch_PULL request Hcmd). ask h.
      destruct (h _ (open (data request) O_RDONLY) w) as [opened w1]. ask h.
      destruct (open_return opened >=? 0); ask h; repeat constructor.
    + destruct (h _ (open BOOTLOADER_DEV O_RDONLY) w) as [opened w1] eqn:Hopen.
      destruct (h _ bootloader_get_num_blocks w1) as [n w2] eqn:Hnum.
      destruct (bldr_trace W h w w1 w2 request opened n Hcmd Hopen Hnum)
        as (blocks & answers & _ & -> & _).
      repeat (apply Forall_app; split); [repeat constructor | | repeat constructor].
      apply block_events_plain.
    + rewrite (dispatch_EXIT request Hcmd). ask h. repeat constructor.
  - rewrite (dispatch_unknown request Hnone). ask h. repeat constructor.
Qed.

Lemma while_1_plain (W : Type) (h : oracle W) (fuel : nat) :
  forall w : W, Forall plain (trace_of h (while_1 fuel) w).
Proof.
  induction fuel as [| fuel IH]; intros w; [constructor |].
  unfold trace_of at 1. rewrite while_1_unfold.
  destruct (h _ (transfer_read_request sizeof_request) w) as [request w1] eqn:Hread.
  destruct (iteration_run W h w w1 request Hread) as (Htrace & _).
  assert (Hiter : Forall plain (trace_of h iteration w)).
  { rewrite Htrace. constructor; [now split | apply dispatch_plain]. }
  destruct (outcome_of h iteration w); cbn [fst]; [| exact Hiter].
  apply Forall_app. split; [exact Hiter | apply IH].
Qed.

(** How a run of the body of [while (1)] relates what was read to how it
    ended: it was left through [break] exactly when the last request read
    is an EXIT, and no request before the last is one. *)
Lemma while_1_requests (W : Type) (h : oracle W) (fuel : nat) :
  forall w : W,
    match outcome_of h (while_1 fuel) w with
    | Some _ =>
        exists (before : list usb_shell_request) (last : usb_shell_request),
          requests_read (trace_of h (while_1 fuel) w) = before ++ [last]
          /\ cmd last = tag "EXIT"
          /\ Forall (fun r => cmd r <> tag "EXIT") before
    | None =>
        Forall (fun r => cmd r <> tag "EXIT") (requests_read (trace_of h (while_1 fuel) w))
        /\ List.length (requests_read (trace_of h (while_1 fuel) w)) = fuel
    end.
Proof.
  induction fuel as [| fuel IH]; intros w.
  - cbn. split; [constructor | reflexivity].
  - unfold outcome_of at 1, trace_of at 1 2 3. rewrite while_1_unfold.
    destruct (h _ (transfer_read_request sizeof_request) w) as [first w1] eqn:Hread.
    destruct (iteration_run W h w w1 first Hread) as (Htrace & Hout & _).
    destruct (dispatch_well_answered W h w1 first) as (_ & Hquiet & _ & Hflow).
    assert (Hreads : requests_read (trace_of h iteration w) = [first]).
    { rewrite Htrace. unfold requests_read in *. cbn [collect request_read].
      now rewrite Hquiet. }
    rewrite Hout, Hflow.
    destruct (Z.eqb_spec (cmd first) (tag "EXIT")) as [Hexit | Hother]; cbn [fst snd].
    + exists [], first. rewrite Hreads. repeat split; [exact Hexit | constructor].
    + specialize (IH (world_after h iteration w)).
      unfold requests_read in *. rewrite collect_app, Hreads.
      destruct (outcome_of h (while_1 fuel) (world_after h iteration w)).
      * destruct IH as (before & last & -> & Hlast & Hbefore).
        exists (first :: before), last. repeat split; [exact Hlast |].
        constructor; assumption.
      * destruct IH as (Hall & Hlen). cbn [app List.length]. split.
        -- constructor; assumption.
        -- now rewrite Hlen.
Qed.

Lemma usbshell_loop_requests (W : Type) (h : oracle W) (w : W) (fuel : nat) :
  exists w2 : W,
    requests_read (trace_of h (usbshell_loop fuel) w)
    = requests_read (trace_of h (while_1 fuel) w2)
    /\ outcome_of h (usbshell_loop fuel) w = outcome_of h (while_1 fuel) w2.
Proof.
  destruct (usbshell_loop_run W h w fuel) as (w2 & -> & ->).
  exists w2. split; [| reflexivity].
  unfold requests_read. rewrite !collect_app. cbn [collect request_read app].
  destruct (outcome_of h (while_1 fuel) w2); cbn; now rewrite app_nil_r.
Qed.

(** X4. The loop returns only through EXIT: in a run that returned, the
    last request read is an EXIT and no request before it is one. *)
Theorem loop_returns_only_on_exit (W : Type) (h : oracle W) (w : W) (fuel : nat) :
  outcome_of h (usbshell_loop fuel) w = Some tt ->
  exists (before : list usb_shell_request) (last : usb_shell_request),
    requests_read (trace_of h (usbshell_loop fuel) w) = before ++ [last]
    /\ cmd last = tag "EXIT"
    /\ Forall (fun r => cmd r <> tag "EXIT") before.
Proof.
  destruct (usbshell_loop_requests W h w fuel) as (w2 & -> & ->).
  intros Hret. pose proof (while_1_requests W h fuel w2) as H.
  now rewrite Hret in H.
Qed.

(** X5. Nothing but EXIT stops the loop: in a run where no request read is
    an EXIT, whatever the requests were and however the collaborators
    answered, every one of the [fuel] iterations read its request and got
    its response, and the loop has not returned. *)
Theorem loop_keeps_serving (W : Type) (h : oracle W) (w : W) (fuel : nat) :
  let t := trace_of h (usbshell_loop fuel) w in
  Forall (fun r => cmd r <> tag "EXIT") (requests_read t) ->
  List.length (requests_read t) = fuel
  /\ List.length (responses_written t) = fuel
  /\ outcome_of h (usbshell_loop fuel) w = None.
Proof.
  intros t Hnone. subst t.
  assert (Hcount : List.length (responses_written (trace_of h (usbshell_loop fuel) w))
                   = List.length (requests_read (trace_of h (usbshell_loop fuel) w))).
  { destruct (usbshell_loop_run W h w fuel) as (w2 & -> & _).
    destruct (while_1_lock_step W h fuel w2 Idle (or_introl eq_refl)) as (_ & Hn).
    unfold requests_read, responses_written in *.
    rewrite !collect_app, !length_app.
    destruct (outcome_of h (while_1 fuel) w2); cbn; lia. }
  rewrite Hcount.
  destruct (usbshell_loop_requests W h w fuel) as (w2 & Hreqs & ->).
  rewrite Hreqs in *.
  pose proof (while_1_requests W h fuel w2) as H.
  destruct (outcome_of h (while_1 fuel) w2).
  - destruct H as (before & last & Heq & Hlast & _). exfalso.
    rewrite Heq in Hnone. apply Forall_app in Hnone. destruct Hnone as (_ & Hnone).
    inversion Hnone; contradiction.
  - destruct H as (_ & Hlen). now rewrite Hlen.
Qed.

(** X6. The session is made before anything else and ended after everything
    else: a run starts with the two constructors, for the feature 0x23, and
    it ends, when the loop returned, with the delay of 500000 microseconds
    and the two deletes, transport first; no call in between makes or
    deletes anything, so the transport is never used after its delete. *)
Theorem session_lifecycle (W : Type) (h : oracle W) (w : W) (fuel : nat) :
  exists body : list event,
    trace_of h (usbshell_loop fuel) w
    = [Event (new_UsbCmd 35) tt; Event new_UsbSequenceTransfer tt]
      ++ body
      ++ match outcome_of h (usbshell_loop fuel) w with
         | Some _ => [Event (usleep 500000) tt; Event delete_transfer tt;
                      Event delete_cmd tt]
         | None => []
         end
    /\ Forall (fun e => is_lifecycle e = false) body.
Proof.
  destruct (usbshell_loop_run W h w fuel) as (w2 & -> & ->).
  exists (trace_of h (while_1 fuel) w2). split; [reflexivity |].
  eapply Forall_impl; [| apply while_1_plain]. now intros e [He _].
Qed.

(** X10. Frames have one size each in every run: every request is read with
    a length of 65532 bytes (4 of tag and 65528 of payload), every response
    is written with a length of 4, and the read ahead of the info record
    has length 0. *)
Theorem frames_have_fixed_sizes (W : Type) (h : oracle W) (w : W) (fuel : nat) :
  Forall (fun e => frame_sized e = true) (trace_of h (usbshell_loop fuel) w).
Proof.
  destruct (usbshell_loop_run W h w fuel) as (w2 & -> & _).
  repeat (apply Forall_app; split).
  - repeat constructor.
  - eapply Forall_impl; [| apply while_1_plain]. now intros e [_ He].
  - destruct (outcome_of h (while_1 fuel) w2); repeat constructor.
Qed.

(** ** Results and data phases *)

Lemma tag_injective_on_known (a b : string) :
  In a known_commands -> In b known_commands -> tag a = tag b -> a = b.
Proof.
  intros Ha Hb Hab. destruct (string_dec a b) as [E | E]; [exact E | exfalso].
  pose proof (tags_differ a b Ha Hb E) as H.
  rewrite Hab, Z.eqb_refl in H. discriminate H.
Qed.

Lemma commands_with_data_known (name : string) :
  In name commands_with_data -> In name known_commands.
Proof. unfold commands_with_data, known_commands. cbn [In]. tauto. Qed.

(** X7. Outside BLDR the result tells the host whether data follows: a
    result other than 0 is never followed by a data phase, and for INFO,
    SHEL, EXEC and PULL a result of 0 always is. *)
Theorem result_announces_data_phase (W : Type) (h : oracle W) (w : W)
        (request : usb_shell_request) :
  cmd request <> tag "BLDR" ->
  exists r : usb_shell_response,
    responses_written (trace_of h (dispatch request) w) = [r]
    /\ (result r <> 0 -> data_phase (trace_of h (dispatch request) w) = [])
    /\ (forall name : string,
          In name commands_with_data -> cmd request = tag name ->
          result r = 0 -> data_phase (trace_of h (dispatch request) w) <> []).
Proof.
  intros Hbldr.
  assert (Hclash : forall known name : string,
             In known known_commands -> ~ In known commands_with_data ->
             cmd request = tag known ->
             In name commands_with_data -> cmd request = tag name -> False).
  { intros known name Hk Hnot Hcmd Hin Hname. apply Hnot.
    rewrite Hcmd in Hname.
    now rewrite (tag_injective_on_known known name Hk
                   (commands_with_data_known name Hin) Hname). }
  destruct (command_cases request) as [(name & Hin & Hcmd) | Hnone].
  - unfold known_commands in Hin; cbn [In] in Hin.
    destruct Hin as [<- | [<- | [<- | [<- | [<- | [<- | [<- | []]]]]]]].
    + rewrite (dispatch_TEST request Hcmd). ask h. eexists. cbn.
      split; [reflexivity |]. split; [reflexivity |]. intros name Hin Hname _.
      exfalso. apply (Hclash "TEST" name); cbn; intuition discriminate.
    + rewrite (dispatch_INFO request Hcmd). ask h.
      destruct (h _ get_device_info w) as [[err info] w1]. ask h.
      destruct (Z.eqb_spec err 0) as [-> | Herr]; ask h; eexists; cbn;
        (split; [reflexivity |]); split; intros;
        unfold USB_RESULT_SUCCESS in *; cbn in *;
        solve [congruence | discriminate | lia].
    + rewrite (dispatch_spawn request true Hcmd). ask h.
      destruct (h _ (popen2 ["sh"; "-i"] true) w) as [child w1]. ask h.
      destruct (Z.geb_spec (pid child) 0) as [Hpid | Hpid]; ask h; eexists; cbn;
        (split; [reflexivity |]); split; intros;
        unfold USB_RESULT_SUCCESS in *; cbn in *;
        solve [congruence | discriminate | lia].
    + rewrite (dispatch_spawn request false Hcmd). ask h.
      destruct (h _ (popen2 ["sh"; "-c"; data request] false) w) as [child w1]. ask h.
      destruct (Z.geb_spec (pid child) 0) as [Hpid | Hpid]; ask h; eexists; cbn;
        (split; [reflexivity |]); split; intros;
        unfold USB_RESULT_SUCCESS in *; cbn in *;
        solve [congruence | discriminate | lia].
    + rewrite (dispatch_PULL request Hcmd). ask h.
      destruct (h _ (open (data request) O_RDONLY) w) as [opened w1]. ask h.
      destruct (Z.geb_spec (open_return opened) 0) as [Hfd | Hfd]; ask h; eexists; cbn;
        (split; [reflexivity |]); split; intros;
        unfold USB_RESULT_SUCCESS in *; cbn in *;
        solve [congruence | discriminate | lia].
    + contradiction.
    + rewrite (dispatch_EXIT request Hcmd). ask h. eexists. cbn.
      split; [reflexivity |]. split; [reflexivity |]. intros name Hin Hname _.
      exfalso. apply (Hclash "EXIT" name); cbn; intuition discriminate.
  - rewrite (dispatch_unknown request Hnone). ask h. eexists. cbn.
    split; [reflexivity |]. split; [reflexivity |]. intros name Hin Hname _.
    exfalso. apply Hnone. rewrite Hname. apply in_map.
    now apply commands_with_data_known.
Qed.

Lemma block_events_data_phase (fd : Z) (blocks : N -> bootloader_block)
      (answers : list (N * string)) :
  forall i : N,
    data_phase (block_events fd blocks i answers)
    = map (fun a => Event (usb_transfer_read_buffer (snd a) (fst a)) tt) answers
    /\ collect descriptor_closed (block_events fd blocks i answers) = [].
Proof.
  unfold data_phase.
  induction answers as [| [l block_buf] answers IH]; intros i; [easy |].
  destruct (IH (i + 1)%N) as [Hdata Hclosed].
  cbn [block_events filter collect is_data_phase event_role role_of descriptor_closed
       map fst snd].
  now rewrite Hdata, Hclosed.
Qed.

(** X8. The data phase of a BLDR request is made of the streamed buffers and
    nothing else, one per reported block.  With no block reported the
    handler still opens, enumerates and closes, and what the host sees is a
    result of 0 with no data; with 1 to 2^31-1 blocks the host sees a
    result that is not 0 and is followed by data. *)
Theorem bldr_data_phase (W : Type) (h : oracle W) (w w1 w2 : W)
        (request : usb_shell_request) (opened : open_result) (n : N) :
  cmd request = tag "BLDR" ->
  h _ (open BOOTLOADER_DEV O_RDONLY) w = (opened, w1) ->
  h _ bootloader_get_num_blocks w1 = (n, w2) ->
  let t := trace_of h (dispatch request) w in
  let fd := open_return opened in
  (exists answers : list (N * string),
      List.length answers = N.to_nat n
      /\ data_phase t
         = map (fun a => Event (usb_transfer_read_buffer (snd a) (fst a)) tt) answers)
  /\ (n = 0%N ->
      exists blocks : N -> bootloader_block,
        t = [Event (open BOOTLOADER_DEV O_RDONLY) opened;
             Event bootloader_get_num_blocks 0%N;
             Event (transfer_write_response {| result := 0 |} sizeof_response) tt;
             Event (bootloader_get_blocks fd) blocks;
             Event (close fd) tt])
  /\ (0 < Z.of_N n < 2 ^ 31 ->
      responses_written t = [{| result := Z.of_N n |}] /\ data_phase t <> []).
Proof.
  intros Hcmd Hopen Hnum t fd.
  destruct (bldr_trace W h w w1 w2 request opened n Hcmd Hopen Hnum)
    as (blocks & answers & Hlen & Htrace & _).
  fold t fd in Htrace.
  assert (Hdata : data_phase t
                  = map (fun a => Event (usb_transfer_read_buffer (snd a) (fst a)) tt)
                      answers).
  { rewrite Htrace. unfold data_phase. rewrite !filter_app. cbn [filter app].
    change (filter is_data_phase (block_events fd blocks 0 answers))
      with (data_phase (block_events fd blocks 0 answers)).
    rewrite (proj1 (block_events_data_phase fd blocks answers 0%N)).
    apply app_nil_r. }
  split; [now exists answers |]. split.
  - intros ->. exists blocks. destruct answers; [exact Htrace | discriminate Hlen].
  - intros Hn. split.
    + subst t. rewrite (bldr_responses W h w w1 w2 request opened n Hcmd Hopen Hnum).
      unfold int_of_size_t. rewrite int_wrap_small; [reflexivity |].
      unfold INT_MIN, INT_MAX. lia.
    + rewrite Hdata. destruct answers; [cbn in Hlen; lia | discriminate].
Qed.

(** X9. The loop closes a descriptor in one place only: a BLDR request ends
    with one close, of what its open returned; no other request makes the
    loop close anything, so the descriptors that PULL, SHEL and EXEC obtain
    are left to their data phases. *)
Theorem only_bldr_closes (W : Type) (h : oracle W) (w : W)
        (request : usb_shell_request) :
  let t := trace_of h (dispatch request) w in
  (cmd request <> tag "BLDR" -> collect descriptor_closed t = [])
  /\ (cmd request = tag "BLDR" ->
      exists (opened : open_result) (earlier : list event),
        fst (h _ (open BOOTLOADER_DEV O_RDONLY) w) = opened
        /\ t = earlier ++ [Event (close (open_return opened)) tt]
        /\ collect descriptor_closed t = [open_return opened]).
Proof.
  intros t; subst t. split.
  - intros Hbldr.
    destruct (command_cases request) as [(name & Hin & Hcmd) | Hnone].
    + unfold known_commands in Hin; cbn [In] in Hin.
      destruct Hin as [<- | [<- | [<- | [<- | [<- | [<- | [<- | []]]]]]]].
      * rewrite (dispatch_TEST request Hcmd). now ask h.
      * rewrite (dispatch_INFO request Hcmd). ask h.
        destruct (h _ get_device_info w) as [[err info] w1]. ask h.
        destruct (err =? 0); now ask h.
      * rewrite (dispatch_spawn request true Hcmd). ask h.
        destruct (h _ (popen2 ["sh"; "-i"] true) w) as [child w1]. ask h.
        destruct (pid child >=? 0); now ask h.
      * rewrite (dispatch_spawn request false Hcmd). ask h.
        destruct (h _ (popen2 ["sh"; "-c"; data request] false) w) as [child w1]. ask h.
        destruct (pid child >=? 0); now ask h.
      * rewrite (dispatch_PULL request Hcmd). ask h.
        destruct (h _ (open (data request) O_RDONLY) w) as [opened w1]. ask h.
        destruct (open_return opened >=? 0); now ask h.
      * contradiction.
      * rewrite (dispatch_EXIT request Hcmd). now ask h.
    + rewrite (dispatch_unknown request Hnone). now ask h.
  - intros Hcmd.
    destruct (h _ (open BOOTLOADER_DEV O_RDONLY) w) as [opened w1] eqn:Hopen.
    destruct (h _ bootloader_get_num_blocks w1) as [n w2] eqn:Hnum.
    destruct (bldr_trace W h w w1 w2 request opened n Hcmd Hopen Hnum)
      as (blocks & answers & _ & -> & _).
    exists opened. eexists. split; [reflexivity |]. split.
    + rewrite app_assoc. reflexivity.
    + rewrite !collect_app.
      rewrite (proj2 (block_events_data_phase (open_return opened) blocks answers 0%N)).
      reflexivity.
Qed.

End Properties.

(** * The properties on the scripted environment *)

Import Scripted.

(** The lock step is not vacuous: a request left without a response, a
    second response, and data ahead of the response are all refused. *)
Example lock_step_refuses_a_missing_response :
  lock_step (device_info := info) (bootloader_block := block)
    [Event (transfer_read_request sizeof_request) (frame "TEST" "");
     Event (transfer_read_request sizeof_request) (frame "TEST" "")] = false.
Proof. reflexivity. Qed.

Example lock_step_refuses_a_second_response :
  lock_step (device_info := info) (bootloader_block := block)
    [Event (transfer_read_request sizeof_request) (frame "TEST" "");
     Event (transfer_write_response {| result := 0 |} sizeof_response) tt;
     Event (transfer_write_response {| result := 0 |} sizeof_response) tt] = false.
Proof. reflexivity. Qed.

Example lock_step_refuses_data_before_the_response :
  lock_step (device_info := info) (bootloader_block := block)
    [Event (transfer_read_request sizeof_request) (frame "PULL" "/etc/hosts");
     Event (usb_transfer_read_fd 4) tt;
     Event (transfer_write_response {| result := 0 |} sizeof_response) tt] = false.
Proof. reflexivity. Qed.

(** A whole session: seven frames are queued, the loop returns at EXIT and
    the frame queued behind it stays unread. *)
Example session_of_seven_frames :
  let w := bench [frame "TEST" "ping"; frame "INFO" ""; frame "EXEC" "ls";
                  frame "PULL" "/no/such/file"; frame "BLDR" ""; frame "XYZQ" "";
                  frame "EXIT" ""; frame "TEST" ""] in
  map result (responses_written (trace_of env (session 20) w)) = [0; 0; 0; -1; 2; -1; 0]
  /\ data_phase (trace_of env (session 20) w)
     = [Event (transfer_read_null 0) tt;
        Event (transfer_write_info "DSC-RX100") tt;
        Event (usb_transfer_socket 0 6) tt;
        Event (usb_transfer_read_buffer "boot" 4) tt;
        Event (usb_transfer_read_buffer "loader!" 7) tt]
  /\ outcome_of env (session 20) w = Some tt
  /\ frames (world_after env (session 20) w) = [frame "TEST" ""].
Proof. repeat split. Qed.

(** An INFO request, once with a provider that succeeds and once with one
    that fails with -5. *)
Lemma info_reports_provider_status_witness :
  trace_of env (serve (frame "INFO" "")) (bench [])
  = [Event get_device_info (0, "DSC-RX100");
     Event (transfer_write_response {| result := 0 |} sizeof_response) tt;
     Event (transfer_read_null 0) tt;
     Event (transfer_write_info "DSC-RX100") tt]
  /\ trace_of env (serve (frame "INFO" "")) (with_provider (-5, "") (bench []))
     = [Event get_device_info (-5, "");
        Event (transfer_write_response {| result := -5 |} sizeof_response) tt].
Proof.
  split.
  - apply (info_reports_provider_status DEV LittleEndian world env
             (bench []) (bench []) (frame "INFO" "") 0 "DSC-RX100");
      reflexivity.
  - apply (info_reports_provider_status DEV LittleEndian world env
             (with_provider (-5, "") (bench [])) (with_provider (-5, "") (bench []))
             (frame "INFO" "") (-5) "");
      [reflexivity | reflexivity | discriminate].
Defined.

(** An EXEC request whose spawn fails with -12, and a SHEL request whose
    spawn succeeds. *)
Lemma spawn_failure_skips_the_bridge_witness :
  trace_of env (serve (frame "EXEC" "ls"))
    (with_child {| pid := -12; child_stdin := 0; child_stdout := 0 |} (bench []))
  = [Event (popen2 ["sh"; "-c"; "ls"] false)
       {| pid := -12; child_stdin := 0; child_stdout := 0 |};
     Event (transfer_write_response {| result := -12 |} sizeof_response) tt]
  /\ trace_of env (serve (frame "SHEL" "")) (bench [])
     = [Event (popen2 ["sh"; "-i"] true) {| pid := 77; child_stdin := 5; child_stdout := 6 |};
        Event (transfer_write_response {| result := 0 |} sizeof_response) tt;
        Event (usb_transfer_socket 5 6) tt].
Proof.
  split.
  - apply (spawn_failure_skips_the_bridge DEV LittleEndian world env
             (with_child {| pid := -12; child_stdin := 0; child_stdout := 0 |} (bench []))
             (with_child {| pid := -12; child_stdin := 0; child_stdout := 0 |} (bench []))
             (frame "EXEC" "ls") false
             {| pid := -12; child_stdin := 0; child_stdout := 0 |});
      reflexivity.
  - apply (spawn_failure_skips_the_bridge DEV LittleEndian world env
             (bench []) (bench []) (frame "SHEL" "") true
             {| pid := 77; child_stdin := 5; child_stdout := 6 |});
      [reflexivity | reflexivity | discriminate].
Defined.

(** A PULL of a file that is there and of one that is not. *)
Lemma pull_reports_open_return_witness :
  trace_of env (serve (frame "PULL" "/etc/hosts")) (bench [])
  = [Event (open "/etc/hosts" O_RDONLY) (Opened 4);
     Event (transfer_write_response {| result := 0 |} sizeof_response) tt;
     Event (usb_transfer_read_fd 4) tt]
  /\ trace_of env (serve (frame "PULL" "/no/such/file")) (bench [])
     = [Event (open "/no/such/file" O_RDONLY) (OpenFailed ENOENT);
        Event (transfer_write_response {| result := -1 |} sizeof_response) tt].
Proof.
  split.
  - apply (pull_reports_open_return DEV LittleEndian world env
             (bench []) (bench []) (frame "PULL" "/etc/hosts") (Opened 4));
      reflexivity.
  - apply (pull_reports_open_return DEV LittleEndian world env
             (bench []) (bench []) (frame "PULL" "/no/such/file") (OpenFailed ENOENT));
      reflexivity.
Defined.

(** C3 as stated fails: the open of a missing file fails with ENOENT, and
    the result is -1, which is neither ENOENT nor its negation. *)
Lemma pull_result_is_not_errno :
  env _ (open "/no/such/file" O_RDONLY) (bench []) = (OpenFailed ENOENT, bench [])
  /\ responses_written
       (trace_of env (serve (frame "PULL" "/no/such/file")) (bench []))
     = [{| result := -1 |}]
  /\ ~ pull_result_is_errno (device_info := info) (bootloader_block := block)
         DEV LittleEndian.
Proof.
  split; [reflexivity |]. split; [reflexivity |].
  intros claim.
  destruct (claim world env (bench []) (bench []) (frame "PULL" "/no/such/file") ENOENT
              eq_refl eq_refl) as [H | H];
    vm_compute in H; discriminate H.
Qed.

(** A BLDR request on an image of two blocks, of 4 and 7 bytes. *)
Lemma bldr_streams_every_block_witness :
  let t := trace_of env (serve (frame "BLDR" "")) (bench []) in
  responses_written t = [{| result := 2 |}]
  /\ List.length (collect buffer_streamed t) = 2%nat
  /\ map snd (collect buffer_streamed t) = collect block_size_declared t.
Proof.
  intros t.
  destruct (bldr_streams_every_block DEV LittleEndian world env
              (bench []) (bench []) (bench []) (frame "BLDR" "") (Opened 3) 2%N
              eq_refl eq_refl eq_refl) as (Hresult & _ & _ & Hcount & Hsizes).
  repeat split; assumption.
Defined.

(** C2 as stated fails: a reader that reports 2^31 blocks gets the result
    -2^31, not 2^31. *)
Lemma bldr_result_is_not_count :
  env _ bootloader_get_num_blocks two_to_31 = (2147483648%N, two_to_31)
  /\ int_of_size_t 2147483648 = -2147483648
  /\ ~ bldr_result_is_count (device_info := info) (bootloader_block := block)
         DEV LittleEndian.
Proof.
  split; [reflexivity |]. split; [reflexivity |].
  intros claim.
  pose proof (claim world env two_to_31 two_to_31 two_to_31 (frame "BLDR" "")
                (Opened 3) 2147483648%N eq_refl eq_refl eq_refl) as Hclaim.
  rewrite (bldr_responses DEV LittleEndian world env two_to_31 two_to_31 two_to_31
             (frame "BLDR" "") (Opened 3) 2147483648%N eq_refl eq_refl eq_refl)
    in Hclaim.
  injection Hclaim as Hclaim. discriminate Hclaim.
Qed.

(** A BLDR request when the bootloader device cannot be opened. *)
Lemma bldr_ignores_failed_open_witness :
  exists (blocks : N -> block) (answers : list (N * string)),
    List.length answers = 2%nat
    /\ trace_of env (serve (frame "BLDR" "")) (with_files [] (bench []))
       = [Event (open DEV O_RDONLY) (OpenFailed ENOENT);
          Event bootloader_get_num_blocks 2%N;
          Event (transfer_write_response {| result := 2 |} sizeof_response) tt;
          Event (bootloader_get_blocks (-1)) blocks]
         ++ block_events (-1) blocks 0 answers
         ++ [Event (close (-1)) tt].
Proof.
  exact (proj1 (bldr_ignores_failed_open DEV LittleEndian world env
                  (with_files [] (bench [])) (with_files [] (bench []))
                  (with_files [] (bench [])) (frame "BLDR" "") ENOENT 2%N
                  eq_refl eq_refl eq_refl)).
Defined.

(** A BLDR request whose count, 3000000000, fits a 32-bit [size_t]. *)
Lemma bldr_count_conversion_witness :
  exists r : Z,
    responses_written
      (trace_of env (serve (frame "BLDR" "")) (with_count 3000000000 (bench [])))
    = [{| result := r |}]
    /\ INT_MIN <= r <= INT_MAX
    /\ r mod 2 ^ 32 = 3000000000 mod 2 ^ 32
    /\ (r < 0 <-> 2 ^ 31 <= 3000000000 mod 2 ^ 32)
    /\ (size_t_fits 32 3000000000 -> 2 ^ 31 <= 3000000000 -> r < 0).
Proof.
  exact (bldr_count_conversion DEV LittleEndian world env
           (with_count 3000000000 (bench [])) (with_count 3000000000 (bench []))
           (with_count 3000000000 (bench [])) (frame "BLDR" "") (Opened 3) 3000000000%N
           eq_refl eq_refl eq_refl).
Defined.

(** C10 as stated fails where [size_t] has 64 bits: a count of 2^32 is
    2^31 or more and goes out as 0. *)
Lemma bldr_large_count_is_not_negative :
  size_t_fits 64 4294967296
  /\ env _ bootloader_get_num_blocks two_to_32 = (4294967296%N, two_to_32)
  /\ int_of_size_t 4294967296 = 0
  /\ ~ bldr_large_count_is_negative (device_info := info) (bootloader_block := block)
         DEV LittleEndian 64.
Proof.
  split; [reflexivity |]. split; [reflexivity |]. split; [reflexivity |].
  intros claim.
  destruct (claim world env two_to_32 two_to_32 two_to_32 (frame "BLDR" "")
              (Opened 3) 4294967296%N eq_refl eq_refl eq_refl eq_refl)
    as (r & Hr & Hneg); [discriminate |].
  rewrite (bldr_responses DEV LittleEndian world env two_to_32 two_to_32 two_to_32
             (frame "BLDR" "") (Opened 3) 4294967296%N eq_refl eq_refl eq_refl)
    in Hr.
  injection Hr as <-. discriminate Hneg.
Qed.

(** A session of three queued frames, TEST, EXIT, TEST: the loop returns
    after the second and the third is never read. *)
Lemma exit_ends_the_loop_witness :
  let w := bench [frame "TEST" ""; frame "EXIT" ""; frame "TEST" ""] in
  requests_read (trace_of env (session 5) w)
  = [frame "TEST" ""] ++ frame "EXIT" "" :: []
  /\ outcome_of env (session 5) w = Some tt.
Proof.
  intros w. split; [reflexivity |].
  apply (proj2 (proj2 (exit_ends_the_loop DEV LittleEndian world env w 5
                         (frame "EXIT" "") eq_refl))
           [frame "TEST" ""] []).
  reflexivity.
Defined.

(** A frame tagged XYZQ, with a TEST frame queued behind it. *)
Lemma unknown_command_rejected_witness :
  trace_of env (serve (frame "XYZQ" "")) (bench [frame "TEST" ""])
  = [Event (transfer_write_response {| result := -1 |} sizeof_response) tt].
Proof.
  apply (unknown_command_rejected DEV LittleEndian world env
           (bench [frame "XYZQ" ""; frame "TEST" ""]) (bench [frame "TEST" ""]) 0
           (frame "XYZQ" "")).
  - cbv. intuition discriminate.
  - reflexivity.
Defined.

(** * The further properties on the scripted environment *)

(** The tag of EXIT against itself. *)
Lemma load_int_injective_witness :
  String.length "EXIT" = 4%nat
  /\ load_int BigEndian "EXIT" = load_int BigEndian (String "E" "XIT")
  /\ "EXIT" = String "E" "XIT".
Proof.
  split; [reflexivity |]. split; [reflexivity |].
  apply (load_int_injective BigEndian "EXIT" (String "E" "XIT")); reflexivity.
Defined.

(** A host that packs TEST for a big-endian machine, talking to a
    little-endian one. *)
Lemma swapped_tag_is_unknown_witness :
  In "TEST" known_commands
  /\ trace_of env (serve {| cmd := load_int BigEndian "TEST"; data := "ping" |}) (bench [])
     = [Event (transfer_write_response {| result := -1 |} sizeof_response) tt].
Proof.
  split; [cbn; tauto |].
  apply (swapped_tag_is_unknown DEV LittleEndian world env (bench []) "TEST" "ping").
  cbn; tauto.
Defined.

(** Two SHEL requests with different payloads. *)
Lemma payload_is_ignored_witness :
  serve (frame "SHEL" "first") = serve (frame "SHEL" "second").
Proof.
  apply (payload_is_ignored (device_info := info) (bootloader_block := block)
           DEV LittleEndian (frame "SHEL" "first") (frame "SHEL" "second"));
    [reflexivity | discriminate | discriminate].
Defined.

(** A session that returns: TEST, then EXIT, with a TEST left in the queue. *)
Lemma loop_returns_only_on_exit_witness :
  let w := bench [frame "TEST" ""; frame "EXIT" ""; frame "TEST" ""] in
  outcome_of env (session 5) w = Some tt
  /\ exists (before : list usb_shell_request) (last : usb_shell_request),
       requests_read (trace_of env (session 5) w) = before ++ [last]
       /\ cmd last = tag LittleEndian "EXIT"
       /\ Forall (fun r => cmd r <> tag LittleEndian "EXIT") before.
Proof.
  intros w. split; [reflexivity |].
  apply (loop_returns_only_on_exit DEV LittleEndian world env w 5). reflexivity.
Defined.

(** Three iterations on requests that all fail or are unknown: a PULL of a
    missing file, an unknown tag, and an INFO whose provider fails. *)
Lemma loop_keeps_serving_witness :
  let w := with_provider (-5, "")
             (bench [frame "PULL" "/no/such/file"; frame "XYZQ" ""; frame "INFO" "";
                     frame "TEST" ""]) in
  List.length (requests_read (trace_of env (session 3) w)) = 3%nat
  /\ List.length (responses_written (trace_of env (session 3) w)) = 3%nat
  /\ outcome_of env (session 3) w = None.
Proof.
  intros w.
  apply (loop_keeps_serving DEV LittleEndian world env w 3).
  repeat constructor; discriminate.
Defined.

(** A PULL of a file that is there: result 0 and a data phase. *)
Lemma result_announces_data_phase_witness :
  exists r : usb_shell_response,
    responses_written (trace_of env (serve (frame "PULL" "/etc/hosts")) (bench [])) = [r]
    /\ (result r <> 0 ->
        data_phase (trace_of env (serve (frame "PULL" "/etc/hosts")) (bench [])) = [])
    /\ (forall name : string,
          In name commands_with_data ->
          cmd (frame "PULL" "/etc/hosts") = tag LittleEndian name ->
          result r = 0 ->
          data_phase (trace_of env (serve (frame "PULL" "/etc/hosts")) (bench [])) <> []).
Proof.
  apply (result_announces_data_phase DEV LittleEndian world env (bench [])
           (frame "PULL" "/etc/hosts")).
  discriminate.
Defined.

(** A BLDR request on an image without blocks. *)
Lemma bldr_data_phase_witness :
  exists blocks : N -> block,
    trace_of env (serve (frame "BLDR" "")) (with_count 0 (bench []))
    = [Event (open DEV O_RDONLY) (Opened 3);
       Event bootloader_get_num_blocks 0%N;
       Event (transfer_write_response {| result := 0 |} sizeof_response) tt;
       Event (bootloader_get_blocks 3) blocks;
       Event (close 3) tt].
Proof.
  apply (proj1 (proj2 (bldr_data_phase DEV LittleEndian world env
                         (with_count 0 (bench [])) (with_count 0 (bench []))
                         (with_count 0 (bench [])) (frame "BLDR" "") (Opened 3) 0%N
                         eq_refl eq_refl eq_refl))).
  reflexivity.
Defined.

(** A PULL that opens descriptor 4 and a BLDR that opens descriptor 3. *)
Lemma only_bldr_closes_witness :
  collect descriptor_closed (trace_of env (serve (frame "PULL" "/etc/hosts")) (bench [])) = []
  /\ collect descriptor_closed (trace_of env (serve (frame "BLDR" "")) (bench [])) = [3].
Proof.
  split.
  - apply (proj1 (only_bldr_closes DEV LittleEndian world env (bench [])
                    (frame "PULL" "/etc/hosts"))).
    discriminate.
  - destruct (proj2 (only_bldr_closes DEV LittleEndian world env (bench [])
                       (frame "BLDR" "")) eq_refl)
      as (opened & earlier & Hopened & _ & Hclosed).
    unfold serve. rewrite Hclosed. cbn in Hopened. now subst opened.
Defined.
